(** * instagram-statistic: the analysis core of [script.js]

    A shallow embedding of the three methods of [InstagramAnalyzer] that
    carry the logic of the page, [extractUsernames], [parseJSON] and
    [analyze], together with the JavaScript operations they rely on
    (property access, optional chaining, [||], truthiness, [Array.isArray],
    [String.prototype.trim], [JSON.parse], [Set]). *)

From Stdlib Require Import QArith Qabs Ascii String.
From stdpp Require Import base option list gmap sets strings pretty.

Set Warnings "-register-all".

Local Open Scope nat_scope.

(** ** Strings

    A JavaScript string is a sequence of UTF-16 code units.  [str] turns a
    literal of the source, written in ASCII, into that sequence. *)

Definition jsstring : Type := list N.

Definition str (s : string) : jsstring :=
  map Ascii.N_of_ascii (String.list_ascii_of_string s).

(** ** Values

    The values the program handles: what [JSON.parse] builds, and
    [undefined], which member access produces.  A [Number] carries the exact
    value of the literal it was read from and stands for the double nearest
    to it; the program only ever tests numbers for truthiness.  The members
    of an [Object] are listed in source order; when a name is repeated the
    last occurrence is the property's value. *)

Inductive jsval : Type :=
  | Undefined
  | Null
  | Bool (b : bool)
  | Number (q : Q)
  | Str (s : jsstring)
  | Array (items : list jsval)
  | Object (members : list (jsstring * jsval)).

(** Abrupt completion.  The exceptions the modelled code can raise are the
    [TypeError] of a member access on [null] or [undefined], or of a call to
    something that is not a function, and the [SyntaxError] of [JSON.parse],
    which carries the parser's message. *)

Inductive jserror : Type :=
  | TypeError
  | SyntaxError (message : string).

Inductive completion (A : Type) : Type :=
  | Normal (a : A)
  | Throw (e : jserror).

Arguments Normal {A} a.
Arguments Throw {A} e.

#[global] Instance completion_ret : MRet completion := fun A a => Normal a.

#[global] Instance completion_bind : MBind completion := fun A B k c =>
  match c with
  | Normal a => k a
  | Throw e => Throw e
  end.

Definition returns {A} (c : completion A) : Prop :=
  exists a, c = Normal a.

(** ** Truthiness ([ToBoolean]) *)

(** A decimal literal is read as the double [+0] or [-0] exactly when its
    magnitude is at most half the least subnormal, [2^-1075] (the tie goes
    to the even significand, zero). *)
Definition rounds_to_zero (q : Q) : bool :=
  Qle_bool (Qabs q) (1 # 2 ^ 1075).

Definition truthy (v : jsval) : bool :=
  match v with
  | Undefined | Null => false
  | Bool b => b
  | Number q => negb (rounds_to_zero q)
  | Str s => negb (bool_decide (s = []))
  | Array _ | Object _ => true
  end.

(** [a || b], for a right operand whose evaluation has no effect. *)
Definition or_else (a b : jsval) : jsval :=
  if truthy a then a else b.

Definition nullish (v : jsval) : bool :=
  match v with
  | Undefined | Null => true
  | _ => false
  end.

(** ** Member access *)

(** The property names the program reads.  None of them is an array index,
    [length], or a member of [Object.prototype], [Array.prototype],
    [String.prototype], [Number.prototype] or [Boolean.prototype], so a read
    of one of them only ever finds an own property of an object. *)
Module K.
Inductive key : Type :=
  | string_list_data
  | title
  | value
  | href
  | relationships_following
  | relationships_followers.

Definition name (k : key) : jsstring :=
  match k with
  | string_list_data => str "string_list_data"
  | title => str "title"
  | value => str "value"
  | href => str "href"
  | relationships_following => str "relationships_following"
  | relationships_followers => str "relationships_followers"
  end.
End K.

Fixpoint own_property (name : jsstring) (members : list (jsstring * jsval)) : option jsval :=
  match members with
  | [] => None
  | (k, v) :: rest =>
      match own_property name rest with
      | Some v' => Some v'
      | None => if bool_decide (k = name) then Some v else None
      end
  end.

(** [v.k] for a [v] that is neither [null] nor [undefined]. *)
Definition get (v : jsval) (k : K.key) : jsval :=
  match v with
  | Object members => default Undefined (own_property (K.name k) members)
  | _ => Undefined
  end.

(** [v.k]: a [TypeError] on [null] and [undefined]. *)
Definition member (v : jsval) (k : K.key) : completion jsval :=
  if nullish v then Throw TypeError else Normal (get v k).

(** [v?.k] *)
Definition opt_member (v : jsval) (k : K.key) : jsval :=
  if nullish v then Undefined else get v k.

(** [v?.[0]]: the first element of an array, the first code unit of a
    string, the property named ["0"] of an object. *)
Definition opt_first (v : jsval) : jsval :=
  match v with
  | Undefined | Null => Undefined
  | Array (x :: _) => x
  | Str (c :: _) => Str [c]
  | Object members => default Undefined (own_property (str "0") members)
  | _ => Undefined
  end.

(** ** [extractUsernames] *)

Record contact : Type := Contact {
  username : jsval;
  href : jsval
}.

(** The body of the arrow function passed to [map]. *)
Definition to_contact (item : jsval) : completion contact :=
  sld ← member item K.string_list_data;
  let entry := opt_first sld in
  Normal {| username := or_else (or_else (opt_member entry K.value) (get item K.title)) (Str []);
            href := or_else (opt_member entry K.href) (Str []) |}.

Definition isArray (v : jsval) : bool :=
  match v with
  | Array _ => true
  | _ => false
  end.

Definition extractUsernames (data : jsval) : completion (list contact) :=
  match data with
  | Array items =>
      mapped ← mapM to_contact items;
      Normal (filter (fun x => truthy (username x) = true) mapped)
  | _ => Normal []
  end.

(** ** [JSON.parse]

    A recursive-descent reader of the JSON grammar (ECMA-404), as
    [JSON.parse] applies it: the whole text must be one value surrounded by
    optional white space. *)

Module JSON.

Inductive parse_result (A : Type) : Type :=
  | Parsed (a : A) (rest : jsstring)
  | Failed (message : string)
  | OutOfFuel.

Arguments Parsed {A} a rest.
Arguments Failed {A} message.
Arguments OutOfFuel {A}.

Definition ch (a : Ascii.ascii) : N := Ascii.N_of_ascii a.

Definition is_char (c : N) (a : Ascii.ascii) : bool := N.eqb c (ch a).

Arguments ch a%_char.
Arguments is_char c a%_char.

Definition quote : N := 34%N.

(** JSON white space: space, tab, line feed, carriage return. *)
Definition ws (c : N) : bool :=
  N.eqb c 32 || N.eqb c 9 || N.eqb c 10 || N.eqb c 13.

Fixpoint skip_ws (s : jsstring) : jsstring :=
  match s with
  | c :: r => if ws c then skip_ws r else s
  | [] => []
  end.

Fixpoint strip_prefix (p s : jsstring) : option jsstring :=
  match p, s with
  | [], _ => Some s
  | a :: p', b :: s' => if N.eqb a b then strip_prefix p' s' else None
  | _ :: _, [] => None
  end.

(** *** Numbers *)

Definition digit (c : N) : bool := N.leb 48 c && N.leb c 57.

Fixpoint digits (s : jsstring) : list N * jsstring :=
  match s with
  | c :: r =>
      if digit c then let '(ds, rest) := digits r in ((c - 48)%N :: ds, rest)
      else ([], s)
  | [] => ([], [])
  end.

Definition decimal (ds : list N) : Z :=
  fold_left (fun a d => (10 * a + Z.of_N d)%Z) ds 0%Z.

(** [m * 10^e] *)
Definition scale10 (m e : Z) : Q :=
  if (0 <=? e)%Z then Qmake (m * 10 ^ e) 1
  else Qmake m (Z.to_pos (10 ^ (- e))).

Definition sign (s : jsstring) : bool * jsstring :=
  match s with
  | c :: r => if is_char c "-" then (true, r) else (false, s)
  | [] => (false, s)
  end.

(** [0], or a non-zero digit followed by digits. *)
Definition integer_part (s : jsstring) : option (list N * jsstring) :=
  match s with
  | c :: r =>
      if is_char c "0" then Some ([0%N], r)
      else if digit c then Some (digits s)
      else None
  | [] => None
  end.

(** An optional [.] followed by at least one digit. *)
Definition fraction_part (s : jsstring) : option (list N * jsstring) :=
  match s with
  | c :: r =>
      if is_char c "." then
        match digits r with
        | ([], _) => None
        | (ds, rest) => Some (ds, rest)
        end
      else Some ([], s)
  | [] => Some ([], s)
  end.

(** An optional [e] or [E], an optional sign, at least one digit. *)
Definition exponent_part (s : jsstring) : option (Z * jsstring) :=
  match s with
  | c :: r =>
      if is_char c "e" || is_char c "E" then
        let '(neg, r') :=
          match r with
          | d :: r' => if is_char d "-" then (true, r')
                       else if is_char d "+" then (false, r') else (false, r)
          | [] => (false, r)
          end in
        match digits r' with
        | ([], _) => None
        | (ds, rest) => Some (if neg then (- decimal ds)%Z else decimal ds, rest)
        end
      else Some (0%Z, s)
  | [] => Some (0%Z, s)
  end.

Definition number (s : jsstring) : parse_result Q :=
  let '(neg, s1) := sign s in
  match integer_part s1 with
  | None => Failed "Unexpected token"
  | Some (int, s2) =>
      match fraction_part s2 with
      | None => Failed "Unterminated fractional number"
      | Some (frac, s3) =>
          match exponent_part s3 with
          | None => Failed "Exponent part is missing a number"
          | Some (e, s4) =>
              let m := decimal (int ++ frac) in
              Parsed (scale10 (if neg then (- m)%Z else m) (e - Z.of_nat (length frac))) s4
          end
      end
  end.

(** *** Strings *)

Definition hex (c : N) : option N :=
  if digit c then Some (c - 48)%N
  else if N.leb 97 c && N.leb c 102 then Some (c - 87)%N
  else if N.leb 65 c && N.leb c 70 then Some (c - 55)%N
  else None.

Definition hex4 (a b c d : N) : option N :=
  match hex a, hex b, hex c, hex d with
  | Some x, Some y, Some z, Some w => Some (((x * 16 + y) * 16 + z) * 16 + w)%N
  | _, _, _, _ => None
  end.

Definition escape (c : N) : option N :=
  if N.eqb c quote then Some quote
  else if is_char c "\" then Some (ch "\")
  else if is_char c "/" then Some (ch "/")
  else if is_char c "b" then Some 8%N
  else if is_char c "f" then Some 12%N
  else if is_char c "n" then Some 10%N
  else if is_char c "r" then Some 13%N
  else if is_char c "t" then Some 9%N
  else None.

(** The characters after an opening quote, up to the closing one;
    [acc] holds the code units read so far, last first. *)
Fixpoint string_body (s : jsstring) (acc : jsstring) : parse_result jsstring :=
  match s with
  | [] => Failed "Unterminated string in JSON"
  | c :: r =>
      if N.eqb c quote then Parsed (rev acc) r
      else if is_char c "\" then
        match r with
        | [] => Failed "Unterminated string in JSON"
        | e :: r' =>
            if is_char e "u" then
              match r' with
              | h1 :: h2 :: h3 :: h4 :: r'' =>
                  match hex4 h1 h2 h3 h4 with
                  | Some u => string_body r'' (u :: acc)
                  | None => Failed "Bad Unicode escape in JSON"
                  end
              | _ => Failed "Bad Unicode escape in JSON"
              end
            else
              match escape e with
              | Some u => string_body r' (u :: acc)
              | None => Failed "Bad escaped character in JSON"
              end
        end
      else if N.ltb c 32 then Failed "Bad control character in string literal in JSON"
      else string_body r (c :: acc)
  end.

(** *** Values *)

Definition literal (s : jsstring) : option (jsval * jsstring) :=
  match strip_prefix (str "null") s with
  | Some r => Some (Null, r)
  | None =>
      match strip_prefix (str "true") s with
      | Some r => Some (Bool true, r)
      | None =>
          match strip_prefix (str "false") s with
          | Some r => Some (Bool false, r)
          | None => None
          end
      end
  end.

Fixpoint value (fuel : nat) (s : jsstring) : parse_result jsval :=
  match fuel with
  | 0 => OutOfFuel
  | S fuel =>
      match skip_ws s with
      | [] => Failed "Unexpected end of JSON input"
      | c :: r =>
          if is_char c "[" then
            match skip_ws r with
            | [] => Failed "Unexpected end of JSON input"
            | c' :: r' =>
                if is_char c' "]" then Parsed (Array []) r' else elements fuel r []
            end
          else if is_char c "{" then
            match skip_ws r with
            | [] => Failed "Unexpected end of JSON input"
            | c' :: r' =>
                if is_char c' "}" then Parsed (Object []) r' else members fuel r []
            end
          else if N.eqb c quote then
            match string_body r [] with
            | Parsed k r' => Parsed (Str k) r'
            | Failed m => Failed m
            | OutOfFuel => OutOfFuel
            end
          else
            match literal (c :: r) with
            | Some (v, r') => Parsed v r'
            | None =>
                match number (c :: r) with
                | Parsed q r' => Parsed (Number q) r'
                | Failed m => Failed m
                | OutOfFuel => OutOfFuel
                end
            end
      end
  end

(** The elements of an array after [[]; [acc] holds those read so far,
    last first. *)
with elements (fuel : nat) (s : jsstring) (acc : list jsval) : parse_result jsval :=
  match fuel with
  | 0 => OutOfFuel
  | S fuel =>
      match value fuel s with
      | Parsed v r =>
          match skip_ws r with
          | [] => Failed "Unexpected end of JSON input"
          | c :: r' =>
              if is_char c "," then elements fuel r' (v :: acc)
              else if is_char c "]" then Parsed (Array (rev (v :: acc))) r'
              else Failed "Expected ',' or ']' after array element"
          end
      | Failed m => Failed m
      | OutOfFuel => OutOfFuel
      end
  end

(** The members of an object after [{]. *)
with members (fuel : nat) (s : jsstring) (acc : list (jsstring * jsval)) : parse_result jsval :=
  match fuel with
  | 0 => OutOfFuel
  | S fuel =>
      match skip_ws s with
      | [] => Failed "Unexpected end of JSON input"
      | q :: r0 =>
          if N.eqb q quote then
            match string_body r0 [] with
            | Parsed k r1 =>
                match skip_ws r1 with
                | [] => Failed "Unexpected end of JSON input"
                | colon :: r2 =>
                    if is_char colon ":" then
                      match value fuel r2 with
                      | Parsed v r3 =>
                          match skip_ws r3 with
                          | [] => Failed "Unexpected end of JSON input"
                          | c :: r4 =>
                              if is_char c "," then members fuel r4 ((k, v) :: acc)
                              else if is_char c "}" then Parsed (Object (rev ((k, v) :: acc))) r4
                              else Failed "Expected ',' or '}' after property value"
                          end
                      | Failed m => Failed m
                      | OutOfFuel => OutOfFuel
                      end
                    else Failed "Expected ':' after property name"
                end
            | Failed m => Failed m
            | OutOfFuel => OutOfFuel
            end
          else Failed "Expected double-quoted property name"
      end
  end.

(** Fuel that is never exhausted, see [parse_fuel]. *)
Definition fuel_for (text : jsstring) : nat := 2 * length text + 2.

Definition parse (text : jsstring) : completion jsval :=
  match value (fuel_for text) text with
  | Parsed v rest =>
      match skip_ws rest with
      | [] => Normal v
      | _ :: _ => Throw (SyntaxError "Unexpected non-whitespace character after JSON")
      end
  | Failed m => Throw (SyntaxError m)
  | OutOfFuel => Throw (SyntaxError "Maximum nesting depth exceeded")
  end.

End JSON.

(** ** [String.prototype.trim] *)

(** The code units [trim] strips: WhiteSpace and LineTerminator of
    ECMA-262. *)
Definition white_space (c : N) : bool :=
  (N.leb 9 c && N.leb c 13) || N.eqb c 32 || N.eqb c 160 || N.eqb c 5760
  || (N.leb 8192 c && N.leb c 8202) || N.eqb c 8232 || N.eqb c 8233
  || N.eqb c 8239 || N.eqb c 8287 || N.eqb c 12288 || N.eqb c 65279.

Fixpoint trim_start (s : jsstring) : jsstring :=
  match s with
  | c :: r => if white_space c then trim_start r else s
  | [] => []
  end.

Definition trim (s : jsstring) : jsstring :=
  rev (trim_start (rev (trim_start s))).

(** ** What the page shows

    The observable actions of [parseJSON] and [analyze], in the order they
    happen.  [displayResults] stands for a call of that method that has
    returned. *)

Inductive effect : Type :=
  | console_error (label : string) (e : jserror)
  | alert (message : string)
  | show_loading
  | displayResults (following followers notFollowingBack : list contact)
  | reset_button
  | clear_results.

Definition parse_alert : string :=
  "Помилка парсингу JSON. Перевірте правильність формату даних.".

Definition analysis_alert : string :=
  "Помилка під час аналізу. Перевірте формат даних.".

(** ** [parseJSON]

    The value returned, and what was logged and shown on the way. *)

Definition parseJSON (input : jsstring) : jsval * list effect :=
  if negb (truthy (Str input)) || negb (truthy (Str (trim input))) then (Null, [])
  else
    match JSON.parse input with
    | Normal v => (v, [])
    | Throw error => (Null, [console_error "JSON parsing error:" error; alert parse_alert])
    end.

(** ** Conversion to a string

    Assigning a value to [textContent] or to the [href] of a link converts
    it with [ToString].  On the values of this model the conversion fails,
    with a [TypeError], exactly on an object that has an own property named
    [toString] (its value, read from JSON, is never a function, and
    [Object.prototype.valueOf] returns the object itself), and on an array
    one of whose elements fails in turn ([Array.prototype.join] converts
    each element that is neither [null] nor [undefined]). *)
Fixpoint convertible (v : jsval) : bool :=
  match v with
  | Object members =>
      match own_property (str "toString") members with
      | Some _ => false
      | None => true
      end
  | Array items => forallb convertible items
  | _ => true
  end.

(** [ToString(v)], for its outcome only: the text is not modelled. *)
Definition to_string (v : jsval) : completion jsval :=
  if convertible v then Normal v else Throw TypeError.

(** The arrows of a closed and of an open widget, U+25B6 and U+25BC. *)
Definition arrow_closed : jsstring := [9654%N].
Definition arrow_open : jsstring := [9660%N].

(** ** [createTable], [createSection], [displayResults]

    The elements built are recorded by the classes, attributes and texts
    the code gives them; a text or an address is recorded as the value
    assigned, which the document converts to a string.  The elements the
    code looks up ([#results] and the like) are taken to exist. *)

Module Render.

(** An [<a>] element: the values assigned to its [href], [target], [rel]
    and [textContent]. *)
Record anchor : Type := Anchor {
  anchor_href : jsval;
  anchor_target : string;
  anchor_rel : string;
  anchor_text : jsval
}.

(** The second cell of a row: a link, or a dash in the secondary colour. *)
Inductive link_cell : Type :=
  | Link (a : anchor)
  | Dash (text : string) (color : string).

(** A [<tr>]: its class list, the value assigned to the [textContent] of
    its first cell, and its second cell. *)
Record row : Type := Row {
  row_classes : list string;
  username_cell : jsval;
  link : link_cell
}.

(** The body of the callback given to [forEach]. *)
Definition createRow (highlight : bool) (item : contact) : completion row :=
  name ← to_string (username item);
  cell ← (if truthy (href item)
          then address ← to_string (href item);
               text ← to_string (href item);
               mret (Link {| anchor_href := address;
                             anchor_target := "_blank";
                             anchor_rel := "noopener noreferrer";
                             anchor_text := text |})
          else mret (Dash "-" "var(--text-secondary)"));
  mret {| row_classes := if highlight then ["not-following"%string] else [];
          username_cell := name;
          link := cell |}.

(** The rows appended to the [<tbody>], under the fixed headings
    [Username] and [Link]. *)
Definition createTable (data : list contact) (highlight : bool) : completion (list row) :=
  mapM (createRow highlight) data.

(** The content of a section: the table, or the empty state. *)
Inductive content : Type :=
  | Table (rows : list row)
  | EmptyState (icon : string) (message : string).

(** A section: the parts of its header (the arrow, the icon when there is
    one, the title, the count between brackets) and its content.  Header
    and content start without the class [open]. *)
Record section : Type := Section_ {
  section_arrow : jsstring;
  section_icon : option string;
  section_title : string;
  section_count : nat;
  section_content : content
}.

Definition createSection (title : string) (data : list contact) (highlight : bool)
    (icon : string) : completion section :=
  body ← (if 0 <? length data
          then rows ← createTable data highlight; mret (Table rows)
          else mret (EmptyState "📭" "Немає даних"));
  mret {| section_arrow := arrow_closed;
          section_icon := if String.eqb icon EmptyString then None else Some icon;
          section_title := title;
          section_count := length data;
          section_content := body |}.

(** The children of [#results] after the call, in order (the scrolling
    into view is left out). *)
Definition displayResults (following followers notFollowingBack : list contact)
  : completion (list section) :=
  s1 ← createSection "Following" following false "👥";
  s2 ← createSection "Followers" followers false "👤";
  s3 ← createSection "Не підписані у відповідь" notFollowingBack true "⚠️";
  mret [s1; s2; s3].

End Render.

(** ** [analyze] *)

(** [root.k || root] *)
Definition unwrap (root : jsval) (k : K.key) : completion jsval :=
  nested ← member root k;
  mret (or_else nested root).

Fixpoint filterM {A} (p : A -> completion bool) (l : list A) : completion (list A) :=
  match l with
  | [] => mret []
  | x :: l' =>
      keep ← p x;
      rest ← filterM p l';
      mret (if (keep : bool) then x :: rest else rest)
  end.

(** [set.has(name)] *)
Definition has (set : gset jsstring) (name : jsstring) : bool :=
  bool_decide (name ∈ set).

Section Analyze.

(** [String.prototype.toLowerCase], the case mapping of the Unicode
    Character Database. *)
Variable toLowerCase : jsstring -> jsstring.

(** [x.username.toLowerCase()] *)
Definition lowered (x : contact) : completion jsstring :=
  match username x with
  | Str s => mret (toLowerCase s)
  | _ => Throw TypeError
  end.

(** [new Set(followers.map((x) => x.username.toLowerCase()))] *)
Definition followersSet (followers : list contact) : completion (gset jsstring) :=
  names ← mapM lowered followers;
  mret (list_to_set names).

(** [following.filter((x) => !followersSet.has(x.username.toLowerCase()))] *)
Definition notFollowingBack (following : list contact) (set : gset jsstring)
  : completion (list contact) :=
  filterM (fun x => name ← lowered x; mret (negb (has set name))) following.

(** Lines 210 to 215: the lookup set, then the filter. *)
Definition reciprocity (following followers : list contact) : completion (list contact) :=
  set ← followersSet followers;
  notFollowingBack following set.

(** The body of the [try] block, up to the call of [displayResults]. *)
Definition analysis (followingRaw followersRaw : jsval)
  : completion (list contact * list contact * list contact) :=
  following_data ← unwrap followingRaw K.relationships_following;
  following ← extractUsernames following_data;
  followers_data ← unwrap followersRaw K.relationships_followers;
  followers ← extractUsernames followers_data;
  not_following_back ← reciprocity following followers;
  mret (following, followers, not_following_back).

(** The callback handed to [setTimeout].  [displayResults] is recorded
    when it has returned; when it raises, in [createTable], the [catch]
    branch runs as for a failed analysis and empties [#results] of the
    sections appended so far. *)
Definition deferred (followingRaw followersRaw : jsval) : list effect :=
  match
    '(following, followers, not_following_back) ← analysis followingRaw followersRaw;
    _ ← Render.displayResults following followers not_following_back;
    mret (following, followers, not_following_back)
  with
  | Normal (following, followers, not_following_back) =>
      [displayResults following followers not_following_back; reset_button]
  | Throw error =>
      [console_error "Analysis error:" error; alert analysis_alert;
       reset_button; clear_results]
  end.

Definition analyze (followingInput followersInput : jsstring) : list effect :=
  let '(followingRaw, log1) := parseJSON followingInput in
  let '(followersRaw, log2) := parseJSON followersInput in
  log1 ++ log2 ++
  if negb (truthy followingRaw) || negb (truthy followersRaw) then []
  else show_loading :: deferred followingRaw followersRaw.

End Analyze.

(* ================================================================= *)
(** * The rest of the page

    The widgets around the analysis: the table of a result, the
    collapsible sections, the accordion of the instructions and the loading
    of the instructions.  The document is modelled by the part of it each
    function reads and writes. *)

(** What [console.log], [console.warn] and [console.error] receive. *)
Inductive console : Type :=
  | console_log (message : string) (args : list jsval)
  | console_warn (message : string)
  | console_err (message : string) (args : list jsval).

(** What [#results] holds: what it held before the run, the spinner, the
    sections of a result, or nothing. *)
Inductive results : Type :=
  | Untouched
  | Spinner
  | Sections (sections : list Render.section)
  | Cleared.

(** The content of [#results] after a run of [analyze]. *)
Definition results_step (r : results) (e : effect) : results :=
  match e with
  | show_loading => Spinner
  | displayResults f g n =>
      match Render.displayResults f g n with
      | Normal sections => Sections sections
      | Throw _ => Cleared
      end
  | clear_results => Cleared
  | _ => r
  end.

Definition results_after (trace : list effect) : results :=
  fold_left results_step trace Untouched.

(** Whether the button is disabled after a run of [analyze]; [None] for a
    button the run did not touch. *)
Definition button_step (disabled : option bool) (e : effect) : option bool :=
  match e with
  | show_loading => Some true
  | reset_button => Some false
  | _ => disabled
  end.

Definition button_after (trace : list effect) : option bool :=
  fold_left button_step trace None.

(** ** The click listener of a section *)

Module SectionToggle.

(** [classList.toggle(token)] *)
Definition toggle (token : string) (classes : list string) : list string :=
  if bool_decide (token ∈ classes)
  then filter (fun c => c <> token) classes
  else classes ++ [token].

(** The class lists of the content and of the header, and the text of the
    arrow. *)
Record state : Type := State {
  content_classes : list string;
  header_classes : list string;
  arrow : jsstring
}.

(** A section as [createSection] leaves it. *)
Definition created : state :=
  {| content_classes := ["section-content"%string];
     header_classes := ["section-header"%string];
     arrow := arrow_closed |}.

Definition click (s : state) : state :=
  let isOpen := bool_decide ("open"%string ∈ content_classes s) in
  {| content_classes := toggle "open" (content_classes s);
     header_classes := toggle "open" (header_classes s);
     arrow := if isOpen then arrow_closed else arrow_open |}.

End SectionToggle.

(** ** The click listener of the accordion *)

Module Accordion.

(** What the listener installed by [initAccordion] reads and writes: the
    attribute [aria-expanded] of the header ([None] when absent), the
    text of its [.arrow] element ([None] when it has none), and the
    attribute [hidden] of the element [#instructions-panel] ([None] when
    the document has no such element). *)
Record state : Type := State {
  aria_expanded : option jsstring;
  arrow : option jsstring;
  panel : option (option jsstring)
}.

Definition click (s : state) : state * list console :=
  let isExpanded := bool_decide (aria_expanded s = Some (str "true")) in
  match panel s with
  | None => (s, [console_err "Panel not found" []])
  | Some _ =>
      ({| aria_expanded := Some (if isExpanded then str "false" else str "true");
          arrow := match arrow s with
                   | Some _ => Some (if isExpanded then arrow_closed else arrow_open)
                   | None => None
                   end;
          panel := Some (if isExpanded then Some [] else None) |},
       [console_log "Toggling accordion, was expanded:" [Bool isExpanded];
        console_log (if isExpanded then "Accordion closed" else "Accordion opened") []])
  end.

End Accordion.

(** ** [loadInstructions] *)

Module Instructions.

(** How [fetch] and [response.text()] end: the request is rejected, with
    an error message; or a response arrives, with its [ok] flag and its
    status, whose text is read or is rejected in turn. *)
Inductive fetched : Type :=
  | Rejected (message : jsstring)
  | Response (ok : bool) (status : N) (text : jsstring + jsstring).

(** What the container is given as [innerHTML]: the document fetched, or
    the panel that reports the error, with its message. *)
Inductive shown : Type :=
  | Html (document : jsstring)
  | ErrorPanel (message : jsstring).

(** The [try] block: the document read, or the message of the error
    thrown on the way. *)
Definition attempt (f : fetched) : jsstring + jsstring :=
  match f with
  | Rejected message => inr message
  | Response ok status text =>
      if negb ok then inr (str "HTTP error! status: " ++ str (pretty status))
      else text
  end.

(** Whether [fetch] was called, what the container was given, and the
    log.  [container] tells whether [#instructions-container] exists. *)
Definition loadInstructions (container : bool) (f : fetched)
  : bool * option shown * list console :=
  if negb container then (false, None, [console_err "Instructions container not found" []])
  else
    match attempt f with
    | inl html =>
        (true, Some (Html html), [console_log "Instructions loaded successfully" []])
    | inr message =>
        (true, Some (ErrorPanel message),
         [console_err "Error loading instructions:" [Str message]])
    end.

End Instructions.

(* ================================================================= *)
(** * Notions used to state the properties *)

Definition items_of (data : jsval) : list jsval :=
  match data with
  | Array items => items
  | _ => []
  end.

Definition keeps (x : contact) : Prop := truthy (username x) = true.

(** The username of an element as the specification words it: the [value]
    of the first item of [string_list_data] whenever that sequence is not
    empty, otherwise [title], otherwise the empty string. *)
Definition spec_username (item : jsval) : jsval :=
  match get item K.string_list_data with
  | Array (first :: _) => opt_member first K.value
  | _ => or_else (get item K.title) (Str [])
  end.

(** The fallback of the username: the [title] when truthy, else the empty
    string. *)
Definition title_or_empty (item : jsval) : jsval :=
  if truthy (get item K.title) then get item K.title else Str [].

(** What the code derives as the username of [item], by the shape of its
    [string_list_data].  A non-empty array: the [value] of its first item
    when truthy, the fallback otherwise.  An object, which [[0]] reads at
    its property [0]: likewise when it has that property, the fallback when
    it has not.  Anything else (an empty array, a missing field, [null], a
    string, whose first character has no [value], a number, a boolean): the
    fallback. *)
Definition derives (item : jsval) (u : jsval) : Prop :=
  match get item K.string_list_data with
  | Array (first :: _) =>
      u = if truthy (opt_member first K.value) then opt_member first K.value
          else title_or_empty item
  | Object members =>
      match own_property (str "0") members with
      | Some first =>
          u = if truthy (opt_member first K.value) then opt_member first K.value
              else title_or_empty item
      | None => u = title_or_empty item
      end
  | _ => u = title_or_empty item
  end.

(** Empty, or made of white space only. *)
Definition blank (input : jsstring) : Prop :=
  Forall (fun c => white_space c = true) input.

(** A record whose username is a string.  The canonical records of the
    page, [{username: non-empty string, href: string}], are of this kind. *)
Definition named (x : contact) : bool :=
  match username x with
  | Str _ => true
  | _ => false
  end.

Definition canonical (x : contact) : bool :=
  match username x, href x with
  | Str (_ :: _), Str _ => true
  | _, _ => false
  end.

Definition name_of (x : contact) : jsstring :=
  match username x with
  | Str s => s
  | _ => []
  end.

(** The case mapping on Basic Latin. *)
Definition ascii_lower (c : N) : N :=
  if N.leb 65 c && N.leb c 90 then (c + 32)%N else c.

(** The case-folded username of a record. *)
Definition folded (toLowerCase : jsstring -> jsstring) (x : contact) : jsstring :=
  toLowerCase (name_of x).

(** The case mapping restricted to Basic Latin and Latin-1 Supplement;
    code units of other blocks are left as they are. *)
Definition lower_unit (c : N) : N :=
  if (N.leb 65 c && N.leb c 90)
     || (N.leb 192 c && N.leb c 222 && negb (N.eqb c 215))
  then (c + 32)%N else c.

Definition lower_latin1 (s : jsstring) : jsstring := map lower_unit s.

(** A result of the JSON reader that is not [OutOfFuel], and whose rest, if
    any, is shorter than [s]. *)
Definition consumes {A} (s : jsstring) (p : JSON.parse_result A) : Prop :=
  match p with
  | JSON.Parsed _ r => length r < length s
  | JSON.Failed _ => True
  | JSON.OutOfFuel => False
  end.

(** ** Notions for the further properties *)


(** An entry of the export format, [{string_list_data: [{value, href}]}]
    with a non-empty string as [value], and the record it stands for. *)
Definition well_formed (item : jsval) (c : contact) : Prop :=
  exists first rest name,
    get item K.string_list_data = Array (first :: rest)
    /\ opt_member first K.value = Str name /\ name <> []
    /\ c = {| username := Str name;
              href := if truthy (opt_member first K.href) then opt_member first K.href
                      else Str [] |}.

(** A root value holding the entries [items]: the bare array, or an object
    with the array under the key [k]. *)
Definition exports (root : jsval) (k : K.key) (items : list jsval) : Prop :=
  root = Array items
  \/ (exists members,
        root = Object members /\ own_property (K.name k) members = Some (Array items)).

(** What [parseJSON] logs: nothing, or the parse error and its alert. *)
Definition parse_report (log : list effect) : Prop :=
  log = []
  \/ (exists message,
        log = [console_error "JSON parsing error:" (SyntaxError message); alert parse_alert]).

(** A JSON text written with apostrophes in the place of double quotes. *)
Definition json_text (s : string) : jsstring :=
  map (fun c => if N.eqb c 39 then JSON.quote else c) (str s).

(** The records read from a root value: unwrapped, then normalized. *)
Definition normalized (root : jsval) (k : K.key) : completion (list contact) :=
  unwrap root k ≫= extractUsernames.

(** A record [createTable] can show: its username converts to a string,
    and so does its link when truthy. *)
Definition displayable (x : contact) : bool :=
  convertible (username x) && (negb (truthy (href x)) || convertible (href x)).

(** The row of a record that can be shown. *)
Definition row_of (highlight : bool) (x : contact) : Render.row :=
  {| Render.row_classes := if highlight then ["not-following"%string] else [];
     Render.username_cell := username x;
     Render.link := if truthy (href x)
                    then Render.Link {| Render.anchor_href := href x;
                                        Render.anchor_target := "_blank";
                                        Render.anchor_rel := "noopener noreferrer";
                                        Render.anchor_text := href x |}
                    else Render.Dash "-" "var(--text-secondary)" |}.

(** The section of a list of records that can all be shown. *)
Definition section_of (title : string) (data : list contact) (highlight : bool)
    (icon : string) : Render.section :=
  {| Render.section_arrow := arrow_closed;
     Render.section_icon := if String.eqb icon EmptyString then None else Some icon;
     Render.section_title := title;
     Render.section_count := length data;
     Render.section_content :=
       if 0 <? length data then Render.Table (row_of highlight <$> data)
       else Render.EmptyState "📭" "Немає даних" |}.

(** The trace of an analysis that failed. *)
Definition analysis_failure : list effect :=
  [show_loading; console_error "Analysis error:" TypeError; alert analysis_alert;
   reset_button; clear_results].

(* ================================================================= *)
(** * Properties *)

(** ** Completions *)

Lemma bind_Normal {A B} (c : completion A) (k : A -> completion B) (b : B) :
  c ≫= k = Normal b <-> exists a, c = Normal a /\ k a = Normal b.
Proof.
  destruct c as [a|e]; cbn; split.
  - intros H. exists a. auto.
  - intros (a' & [= <-] & H). exact H.
  - discriminate.
  - intros (a' & [=] & _).
Qed.

Lemma mapM_Normal {A B} (f : A -> completion B) (l : list A) (out : list B) :
  mapM f l = Normal out <-> Forall2 (fun a b => f a = Normal b) l out.
Proof.
  revert out. induction l as [|a l IH]; intros out; cbn.
  - split.
    + intros [= <-]. constructor.
    + intros H. inversion H. reflexivity.
  - split.
    + intros H. apply bind_Normal in H as (b & Hb & H).
      apply bind_Normal in H as (bs & Hbs & [= <-]).
      constructor; [exact Hb | apply IH, Hbs].
    + intros H. inversion H as [|? b ? bs Hb Hbs]; subst.
      rewrite Hb. cbn. apply IH in Hbs. rewrite Hbs. reflexivity.
Qed.

Lemma mapM_returns {A B} (f : A -> completion B) (l : list A) :
  returns (mapM f l) <-> Forall (fun a => returns (f a)) l.
Proof.
  induction l as [|a l IH]; cbn.
  - split; [constructor | intros _; eexists; reflexivity].
  - split.
    + intros [out H]. apply bind_Normal in H as (b & Hb & H).
      apply bind_Normal in H as (bs & Hbs & _).
      constructor; [exists b; exact Hb | apply IH; exists bs; exact Hbs].
    + intros H. inversion H as [|? ? [b Hb] Hl]; subst.
      apply IH in Hl as [bs Hbs]. rewrite Hb. cbn. rewrite Hbs. eexists; reflexivity.
Qed.

(** ** [extractUsernames] *)

Lemma to_contact_returns (item : jsval) :
  returns (to_contact item) <-> nullish item = false.
Proof.
  unfold to_contact, member. destruct (nullish item); cbn.
  - split; [intros [c [=]] | discriminate].
  - split; [reflexivity | intros _; eexists; reflexivity].
Qed.

Lemma extractUsernames_Array (items : list jsval) (out : list contact) :
  extractUsernames (Array items) = Normal out <->
  exists mapped, Forall2 (fun item c => to_contact item = Normal c) items mapped
                 /\ out = filter keeps mapped.
Proof.
  cbn. rewrite bind_Normal. split.
  - intros (mapped & Hm & [= <-]). exists mapped. split; [apply mapM_Normal, Hm | reflexivity].
  - intros (mapped & Hm & ->). exists mapped. split; [apply mapM_Normal, Hm | reflexivity].
Qed.

(** C8. When its argument is not an array, [extractUsernames] returns the
    empty list and does not throw; so it does for [null] and for the string
    ["not array"]; and the empty array gives the empty list. *)
Theorem extractUsernames_not_array (data : jsval) :
  (isArray data = false -> extractUsernames data = Normal [])
  /\ extractUsernames (Array []) = Normal []
  /\ extractUsernames Null = Normal []
  /\ extractUsernames (Str (str "not array")) = Normal [].
Proof.
  split; [|split; [|split]]; try reflexivity.
  intros H. destruct data; try reflexivity; discriminate H.
Qed.

Lemma extractUsernames_not_array_witness :
  isArray (Object [(str "username", Str (str "bob"))]) = false
  /\ extractUsernames (Object [(str "username", Str (str "bob"))]) = Normal [].
Proof.
  split; [reflexivity|].
  exact (proj1 (extractUsernames_not_array (Object [(str "username", Str (str "bob"))])) eq_refl).
Defined.

(** C5, the input on which the claim fails: an array holding [null], as
    [JSON.parse] reads it from the text [[null]].  Reading
    [item.string_list_data] on it raises a [TypeError]. *)
Lemma extractUsernames_null_element_throws :
  JSON.parse (str "[null]") = Normal (Array [Null])
  /\ extractUsernames (Array [Null]) = Throw TypeError
  /\ ~ returns (extractUsernames (Array [Null])).
Proof.
  split; [vm_compute; reflexivity|]. split; [reflexivity|].
  intros [out H]. discriminate H.
Qed.

(** C5, amended.  [extractUsernames] returns without raising exactly when
    its argument is not an array, or is an array none of whose elements is
    [null] or [undefined]: elements that are numbers, booleans, strings,
    arrays, or objects lacking [string_list_data], [value], [title] or [href]
    only lead to defaulted or dropped records. *)
Theorem extractUsernames_returns (data : jsval) :
  returns (extractUsernames data) <->
  Forall (fun item => nullish item = false) (items_of data).
Proof.
  destruct data as [| |b|q|s|items|members]; cbn;
    try (split; [constructor | intros _; eexists; reflexivity]).
  split.
  - intros [out H]. apply bind_Normal in H as (mapped & Hm & _).
    assert (Hr : returns (mapM to_contact items)) by (exists mapped; exact Hm).
    apply mapM_returns in Hr. eapply Forall_impl; [exact Hr|].
    intros item. apply to_contact_returns.
  - intros H.
    assert (Hr : returns (mapM to_contact items)).
    { apply mapM_returns. eapply Forall_impl; [exact H|].
      intros item. apply to_contact_returns. }
    destruct Hr as [mapped Hm]. rewrite Hm. eexists; reflexivity.
Qed.

Lemma extractUsernames_returns_witness :
  returns (extractUsernames
    (Array [Number 5; Bool true; Str (str "bob"); Array []; Object [];
            Object [(str "string_list_data", Array [])];
            Object [(str "string_list_data", Array [Object []])]])).
Proof.
  apply extractUsernames_returns. cbn. repeat constructor.
Defined.

(** C7, the input on which the claim fails: the username of a returned
    record is whatever truthy value the entry held, here the number [5] of
    the text [[{"title":5}]], not a string. *)
Lemma extractUsernames_username_not_string :
  exists c,
    extractUsernames (Array [Object [(str "title", Number 5)]]) = Normal [c]
    /\ ~ (exists s, username c = Str s /\ s <> []).
Proof.
  exists {| username := Number 5; href := Str [] |}. split; [reflexivity|].
  intros (s & H & _). discriminate H.
Qed.

(** C7, amended.  Whenever [extractUsernames] returns, the list is no longer
    than the input array and the username of every record in it is truthy;
    so a username that is a string is never the empty string. *)
Theorem extractUsernames_bounds (data : jsval) (out : list contact) :
  extractUsernames data = Normal out ->
  length out <= length (items_of data)
  /\ Forall (fun c => truthy (username c) = true) out
  /\ (forall c s, c ∈ out -> username c = Str s -> s <> []).
Proof.
  intros H.
  assert (Hout : length out <= length (items_of data)
                 /\ Forall (fun c => truthy (username c) = true) out).
  { destruct data as [| |b|q|s|items|members]; cbn in H;
      try (injection H as <-; split; [cbn; lia | constructor]).
    apply bind_Normal in H as (mapped & Hm & [= <-]).
    apply mapM_Normal, Forall2_length in Hm. cbn. split.
    - rewrite Hm. apply length_filter.
    - apply Forall_forall. intros c Hc. apply list_elem_of_filter in Hc as [Hc _].
      exact Hc. }
  destruct Hout as [Hlen Htruthy]. split; [exact Hlen|]. split; [exact Htruthy|].
  intros c s Hc Hs ->.
  rewrite Forall_forall in Htruthy. specialize (Htruthy c Hc).
  rewrite Hs in Htruthy. discriminate Htruthy.
Qed.

Lemma extractUsernames_bounds_witness :
  length [{| username := Str (str "x"); href := Str (str "h") |}] <= 2
  /\ Forall (fun c => truthy (username c) = true)
       [{| username := Str (str "x"); href := Str (str "h") |}].
Proof.
  pose proof (extractUsernames_bounds
    (Array [Object [(str "string_list_data",
                     Array [Object [(str "value", Str (str "x"));
                                    (str "href", Str (str "h"))]])];
            Object []])
    [{| username := Str (str "x"); href := Str (str "h") |}] eq_refl) as (H1 & H2 & _).
  split; [exact H1 | exact H2].
Defined.

(** C3, the input on which the claim fails: the first item of
    [string_list_data] has the empty string as its [value], and the element
    has a [title]; the code falls back to the title. *)
Lemma to_contact_falls_back_on_empty_value :
  let item := Object [(str "string_list_data", Array [Object [(str "value", Str [])]]);
                      (str "title", Str (str "T"))] in
  spec_username item = Str []
  /\ to_contact item = Normal {| username := Str (str "T"); href := Str [] |}
  /\ extractUsernames (Array [item]) = Normal [{| username := Str (str "T"); href := Str [] |}]
  /\ Str (str "T") <> spec_username item.
Proof.
  cbn zeta. split; [reflexivity|]. split; [reflexivity|]. split; [reflexivity|].
  discriminate.
Qed.

Lemma or_else_truthy (a b : jsval) : truthy a = true -> or_else a b = a.
Proof. unfold or_else. intros ->. reflexivity. Qed.

Lemma or_else_falsy (a b : jsval) : truthy a = false -> or_else a b = b.
Proof. unfold or_else. intros ->. reflexivity. Qed.

Lemma or_else_title (t : jsval) :
  or_else t (Str []) = if truthy t then t else Str [].
Proof. reflexivity. Qed.

Lemma username_chain (v t : jsval) :
  or_else (or_else v t) (Str []) = if truthy v then v else if truthy t then t else Str [].
Proof.
  destruct (truthy v) eqn:Hv.
  - rewrite (or_else_truthy v t Hv). apply or_else_truthy, Hv.
  - rewrite (or_else_falsy v t Hv). apply or_else_title.
Qed.

Lemma to_contact_derives (item : jsval) (c : contact) :
  to_contact item = Normal c -> derives item (username c).
Proof.
  unfold to_contact, member. destruct (nullish item); [discriminate|].
  cbn. intros [= <-]. cbn [username]. rewrite username_chain.
  unfold derives, title_or_empty.
  destruct (get item K.string_list_data) as [| |b|q|s|[|first rest]|members];
    cbn [opt_first]; try reflexivity.
  - destruct s; reflexivity.
  - destruct (own_property (str "0") members); reflexivity.
Qed.

(** C3, amended.  For every array given to [extractUsernames] and every
    element of it, the username derived is the [value] of the first item of
    [string_list_data] whenever there is a first item (the first element of
    a non-empty array, the property [0] of an object) and that value is
    truthy; in every other case, the value being falsy (the empty string
    included) or [string_list_data] being empty, absent, [null], a string, a
    number, a boolean or an object without property [0], it is the [title]
    if that is truthy, and the empty string otherwise.  The list returned
    holds the records so derived whose username is truthy. *)
Theorem extractUsernames_derivation (items : list jsval) (out : list contact) :
  extractUsernames (Array items) = Normal out ->
  exists mapped,
    Forall2 (fun item c => derives item (username c)) items mapped
    /\ out = filter keeps mapped.
Proof.
  intros H. apply extractUsernames_Array in H as (mapped & Hm & ->).
  exists mapped. split; [|reflexivity].
  eapply Forall2_impl; [exact Hm|]. apply to_contact_derives.
Qed.

Lemma extractUsernames_derivation_witness :
  exists mapped,
    Forall2 (fun item c => derives item (username c))
      [Object [(str "string_list_data", Array [Object [(str "value", Str (str "x"))]]);
               (str "title", Str (str "T"))];
       Object [(str "string_list_data", Array [Object [(str "value", Str [])]]);
               (str "title", Str (str "T"))];
       Object [(str "string_list_data", Array [])]] mapped
    /\ [{| username := Str (str "x"); href := Str [] |};
        {| username := Str (str "T"); href := Str [] |}] = filter keeps mapped.
Proof.
  apply extractUsernames_derivation. reflexivity.
Defined.

(** ** The fuel of the JSON reader

  Every recursive call of the reader is on a shorter text, so the fuel
  [JSON.parse] starts with is never used up. *)

Module JSONFacts.
Import JSON.

Lemma skip_ws_length (s : jsstring) : length (skip_ws s) <= length s.
Proof.
  induction s as [|c r IH]; cbn; [lia|]. destruct (ws c); cbn; lia.
Qed.

Lemma skip_ws_cons (s : jsstring) (c : N) (r : jsstring) :
  skip_ws s = c :: r -> length r < length s.
Proof.
  intros H. pose proof (skip_ws_length s) as Hl. rewrite H in Hl. cbn in Hl. lia.
Qed.

Lemma strip_prefix_length (p s r : jsstring) :
  strip_prefix p s = Some r -> length s = length p + length r.
Proof.
  revert s. induction p as [|a p IH]; intros s; cbn.
  - intros [= <-]. reflexivity.
  - destruct s as [|b s]; [discriminate|]. destruct (N.eqb a b); [|discriminate].
    intros H. apply IH in H. cbn. lia.
Qed.

Lemma literal_length (s : jsstring) (v : jsval) (r : jsstring) :
  literal s = Some (v, r) -> length r < length s.
Proof.
  unfold literal.
  destruct (strip_prefix (str "null") s) eqn:H1;
    [intros [= _ <-]; apply strip_prefix_length in H1; cbn in H1; lia|].
  destruct (strip_prefix (str "true") s) eqn:H2;
    [intros [= _ <-]; apply strip_prefix_length in H2; cbn in H2; lia|].
  destruct (strip_prefix (str "false") s) eqn:H3;
    [intros [= _ <-]; apply strip_prefix_length in H3; cbn in H3; lia|].
  discriminate.
Qed.

Lemma digits_length (s : jsstring) : length (digits s).2 <= length s.
Proof.
  induction s as [|c r IH]; cbn; [lia|].
  destruct (digit c); [|cbn; lia]. destruct (digits r) as [ds rest]. cbn in *. lia.
Qed.

Lemma sign_length (s : jsstring) : length (sign s).2 <= length s.
Proof.
  destruct s as [|c r]; cbn; [lia|]. destruct (is_char c "-"); cbn; lia.
Qed.

Lemma integer_part_length (s : jsstring) ds r :
  integer_part s = Some (ds, r) -> length r < length s.
Proof.
  destruct s as [|c s']; cbn; [discriminate|].
  destruct (is_char c "0"); [intros [= _ <-]; lia|].
  destruct (digit c) eqn:Hd; [|discriminate].
  pose proof (digits_length s') as Hl. destruct (digits s') as [ds' rest].
  intros [= _ <-]. cbn in Hl. lia.
Qed.

Lemma fraction_part_length (s : jsstring) ds r :
  fraction_part s = Some (ds, r) -> length r <= length s.
Proof.
  destruct s as [|c s']; cbn; [intros [= _ <-]; cbn; lia|].
  destruct (is_char c "."); [|intros [= _ <-]; cbn; lia].
  pose proof (digits_length s') as Hl. destruct (digits s') as [[|d ds'] rest];
    [discriminate|]. intros [= _ <-]. cbn in Hl. lia.
Qed.

Lemma exponent_part_length (s : jsstring) e r :
  exponent_part s = Some (e, r) -> length r <= length s.
Proof.
  destruct s as [|c s']; cbn; [intros [= _ <-]; cbn; lia|].
  destruct (is_char c "e" || is_char c "E"); [|intros [= _ <-]; cbn; lia].
  destruct s' as [|d s'']; cbn.
  - discriminate.
  - destruct (is_char d "-"); [|destruct (is_char d "+")].
    + pose proof (digits_length s'') as Hl.
      destruct (digits s'') as [[|d' ds'] rest]; [discriminate|].
      intros [= _ <-]. cbn in Hl. lia.
    + pose proof (digits_length s'') as Hl.
      destruct (digits s'') as [[|d' ds'] rest]; [discriminate|].
      intros [= _ <-]. cbn in Hl. lia.
    + pose proof (digits_length (d :: s'')) as Hl.
      destruct (digits (d :: s'')) as [[|d' ds'] rest]; [discriminate|].
      intros [= _ <-]. cbn in Hl. lia.
Qed.

Lemma number_consumes (s : jsstring) : consumes s (number s).
Proof.
  unfold number. pose proof (sign_length s) as H0.
  destruct (sign s) as [neg s1]. cbn in H0.
  destruct (integer_part s1) as [[int s2]|] eqn:H1; [|exact I].
  apply integer_part_length in H1.
  destruct (fraction_part s2) as [[frac s3]|] eqn:H2; [|exact I].
  apply fraction_part_length in H2.
  destruct (exponent_part s3) as [[e s4]|] eqn:H3; [|exact I].
  apply exponent_part_length in H3. cbn. lia.
Qed.

Lemma string_body_consumes (s acc : jsstring) : consumes s (string_body s acc).
Proof.
  remember (length s) as n eqn:Hn. assert (Hle : length s <= n) by lia. clear Hn.
  revert s acc Hle. induction n as [|n IH]; intros s acc Hle.
  - destruct s; [exact I | cbn in Hle; lia].
  - destruct s as [|c r]; [exact I|]. cbn in Hle. cbn [string_body].
    destruct (N.eqb c quote); [cbn; lia|].
    destruct (is_char c "\").
    + destruct r as [|e r']; [exact I|]. cbn in Hle.
      destruct (is_char e "u").
      * destruct r' as [|h1 [|h2 [|h3 [|h4 r'']]]]; try exact I. cbn in Hle.
        destruct (hex4 h1 h2 h3 h4) as [u|]; [|exact I].
        specialize (IH r'' (u :: acc) ltac:(lia)).
        destruct (string_body r'' (u :: acc)); cbn in *; [lia | exact I | exact IH].
      * destruct (escape e) as [u|]; [|exact I].
        specialize (IH r' (u :: acc) ltac:(lia)).
        destruct (string_body r' (u :: acc)); cbn in *; [lia | exact I | exact IH].
    + destruct (N.ltb c 32); [exact I|].
      specialize (IH r (c :: acc) ltac:(lia)).
      destruct (string_body r (c :: acc)); cbn in *; [lia | exact I | exact IH].
Qed.

Lemma reader_consumes (fuel : nat) :
  (forall s, 2 * length s < fuel -> consumes s (value fuel s))
  /\ (forall s acc, 2 * length s + 1 < fuel -> consumes s (elements fuel s acc))
  /\ (forall s acc, 2 * length s + 1 < fuel -> consumes s (members fuel s acc)).
Proof.
  induction fuel as [|fuel (IHv & IHe & IHm)]; [repeat split; intros; lia|].
  split; [|split].
  - intros s Hf. cbn [value].
    destruct (skip_ws s) as [|c r] eqn:Hs; [exact I|]. apply skip_ws_cons in Hs.
    destruct (is_char c "[").
    { destruct (skip_ws r) as [|c' r'] eqn:Hr; [exact I|]. apply skip_ws_cons in Hr.
      destruct (is_char c' "]"); [cbn; lia|].
      specialize (IHe r [] ltac:(lia)).
      destruct (elements fuel r []); cbn in *; [lia | exact I | exact IHe]. }
    destruct (is_char c "{").
    { destruct (skip_ws r) as [|c' r'] eqn:Hr; [exact I|]. apply skip_ws_cons in Hr.
      destruct (is_char c' "}"); [cbn; lia|].
      specialize (IHm r [] ltac:(lia)).
      destruct (members fuel r []); cbn in *; [lia | exact I | exact IHm]. }
    destruct (N.eqb c quote).
    { pose proof (string_body_consumes r []) as Hb.
      destruct (string_body r []); cbn in *; [lia | exact I | exact Hb]. }
    destruct (literal (c :: r)) as [[v r']|] eqn:Hl.
    { apply literal_length in Hl. cbn in *. lia. }
    pose proof (number_consumes (c :: r)) as Hn.
    destruct (number (c :: r)); cbn in *; [lia | exact I | exact Hn].
  - intros s acc Hf. cbn [elements].
    specialize (IHv s ltac:(lia)).
    destruct (value fuel s) as [v r| |]; cbn in IHv; [|exact I | exact IHv].
    destruct (skip_ws r) as [|c r'] eqn:Hr; [exact I|]. apply skip_ws_cons in Hr.
    destruct (is_char c ",").
    { specialize (IHe r' (v :: acc) ltac:(lia)).
      destruct (elements fuel r' (v :: acc)); cbn in *; [lia | exact I | exact IHe]. }
    destruct (is_char c "]"); [cbn; lia | exact I].
  - intros s acc Hf. cbn [members].
    destruct (skip_ws s) as [|q r0] eqn:Hs; [exact I|]. apply skip_ws_cons in Hs.
    destruct (N.eqb q quote); [|exact I].
    pose proof (string_body_consumes r0 []) as Hb.
    destruct (string_body r0 []) as [k r1| |]; cbn in Hb; [|exact I | exact Hb].
    destruct (skip_ws r1) as [|colon r2] eqn:H1; [exact I|]. apply skip_ws_cons in H1.
    destruct (is_char colon ":"); [|exact I].
    specialize (IHv r2 ltac:(lia)).
    destruct (value fuel r2) as [v r3| |]; cbn in IHv; [|exact I | exact IHv].
    destruct (skip_ws r3) as [|c r4] eqn:H3; [exact I|]. apply skip_ws_cons in H3.
    destruct (is_char c ",").
    { specialize (IHm r4 ((k, v) :: acc) ltac:(lia)).
      destruct (members fuel r4 ((k, v) :: acc)); cbn in *; [lia | exact I | exact IHm]. }
    destruct (is_char c "}"); [cbn; lia | exact I].
Qed.

(** The fuel of [JSON.parse] is enough: the reader ends with a value or
    with a syntax error. *)
Lemma parse_fuel (text : jsstring) : value (fuel_for text) text <> OutOfFuel.
Proof.
  pose proof (proj1 (reader_consumes (fuel_for text)) text) as H.
  unfold fuel_for in *. specialize (H ltac:(lia)).
  destruct (value _ text); [discriminate | discriminate | destruct H].
Qed.

End JSONFacts.

(** ** The input unwrapper *)

Lemma own_property_None (name : jsstring) (members : list (jsstring * jsval)) :
  own_property name members = None <-> name ∉ members.*1.
Proof.
  induction members as [|[k v] rest IH]; cbn.
  - split; [intros _; apply not_elem_of_nil | reflexivity].
  - rewrite not_elem_of_cons. destruct (own_property name rest) as [v'|].
    + split; [discriminate|]. intros [_ H]. apply IH in H. discriminate H.
    + case_bool_decide as Hk.
      * split; [discriminate | intros [H _]; congruence].
      * split; [|reflexivity]. intros _. split; [congruence | apply IH; reflexivity].
Qed.

(** C6, the input on which the claim fails: the key is present on the root
    object, with the value [null]; the unwrapper returns the root object,
    not the nested value. *)
Lemma unwrap_present_but_falsy :
  let root := Object [(str "relationships_following", Null)] in
  own_property (K.name K.relationships_following) [(str "relationships_following", Null)]
    = Some Null
  /\ unwrap root K.relationships_following = Normal root
  /\ unwrap root K.relationships_following <> Normal Null.
Proof.
  cbn zeta. split; [reflexivity|]. split; [reflexivity|]. discriminate.
Qed.

(** C6, amended.  For a root value that is neither [null] nor [undefined]
    (the guard of [analyze] lets no other through), the unwrapper returns
    the nested value at the key when the key is present on the root object
    with a truthy value, as every array is; it returns the root value
    itself, unchanged, when the key is present with a falsy value, when it
    is absent, and when the root is not an object, a bare array included.
    The wrapped example unwraps and normalizes to the single record
    [{username:"x", href:"h"}]. *)
Theorem unwrap_cases (root : jsval) (k : K.key) :
  nullish root = false ->
  (forall members nested,
     root = Object members -> own_property (K.name k) members = Some nested ->
     unwrap root k = Normal (if truthy nested then nested else root))
  /\ (forall members,
        root = Object members -> K.name k ∉ members.*1 -> unwrap root k = Normal root)
  /\ ((forall members, root <> Object members) -> unwrap root k = Normal root)
  /\ (forall items, unwrap (Array items) k = Normal (Array items))
  /\ unwrap (Object [(str "relationships_following",
                      Array [Object [(str "string_list_data",
                                      Array [Object [(str "value", Str (str "x"));
                                                     (str "href", Str (str "h"))]])]])])
            K.relationships_following
       ≫= extractUsernames
     = Normal [{| username := Str (str "x"); href := Str (str "h") |}].
Proof.
  intros Hroot. unfold unwrap, member. rewrite Hroot. cbn.
  split; [|split; [|split; [|split]]].
  - intros members nested -> Hp. cbn. rewrite Hp. reflexivity.
  - intros members -> Hp. apply own_property_None in Hp. cbn. rewrite Hp. reflexivity.
  - intros Hno. destruct root; try reflexivity. destruct (Hno members eq_refl).
  - reflexivity.
  - reflexivity.
Qed.

Lemma unwrap_cases_witness :
  unwrap (Object [(str "relationships_followers", Array [Object [(str "title", Str (str "bob"))]])])
         K.relationships_followers
  = Normal (Array [Object [(str "title", Str (str "bob"))]]).
Proof.
  exact (proj1 (unwrap_cases
    (Object [(str "relationships_followers", Array [Object [(str "title", Str (str "bob"))]])])
    K.relationships_followers eq_refl) _ _ eq_refl eq_refl).
Defined.

(** ** [parseJSON] *)

Lemma trim_start_nil (s : jsstring) : trim_start s = [] <-> blank s.
Proof.
  unfold blank. induction s as [|c r IH]; cbn.
  - split; [constructor | reflexivity].
  - destruct (white_space c) eqn:Hc.
    + rewrite IH. split; [intros H; constructor; assumption | intros H; inversion H; assumption].
    + split; [discriminate|]. intros H. inversion H; congruence.
Qed.

Lemma trim_start_head (s : jsstring) (c : N) (r : jsstring) :
  trim_start s = c :: r -> white_space c = false.
Proof.
  induction s as [|c' r' IH]; cbn; [discriminate|].
  destruct (white_space c') eqn:Hc; [exact IH|]. intros [= <- _]. exact Hc.
Qed.

Lemma trim_nil (s : jsstring) : trim s = [] <-> blank s.
Proof.
  unfold trim. split.
  - intros H. apply trim_start_nil.
    assert (Hr : trim_start (rev (trim_start s)) = []).
    { rewrite <- (rev_involutive (trim_start _)), H. reflexivity. }
    apply trim_start_nil in Hr. unfold blank in Hr.
    destruct (trim_start s) as [|c r] eqn:Hs; [reflexivity|].
    apply trim_start_head in Hs.
    rewrite Forall_forall in Hr. rewrite Hr in Hs; [discriminate|].
    apply list_elem_of_In, in_rev. rewrite rev_involutive. left. reflexivity.
  - intros H. apply trim_start_nil in H. rewrite H. reflexivity.
Qed.

Lemma parseJSON_blank (input : jsstring) : blank input -> parseJSON input = (Null, []).
Proof.
  intros H. apply trim_nil in H. unfold parseJSON. rewrite H. cbn.
  rewrite orb_true_r. reflexivity.
Qed.

Lemma parseJSON_not_blank (input : jsstring) :
  ~ blank input ->
  parseJSON input =
    match JSON.parse input with
    | Normal v => (v, [])
    | Throw error => (Null, [console_error "JSON parsing error:" error; alert parse_alert])
    end.
Proof.
  intros H. unfold parseJSON. cbn.
  case_bool_decide as H1; [subst; destruct H; constructor|].
  case_bool_decide as H2; [apply trim_nil in H2; contradiction|].
  reflexivity.
Qed.

Lemma parse_throws_SyntaxError (text : jsstring) (e : jserror) :
  JSON.parse text = Throw e -> exists message, e = SyntaxError message.
Proof.
  unfold JSON.parse. destruct (JSON.value _ _) as [v rest|m|].
  - destruct (JSON.skip_ws rest); [discriminate|]. intros [= <-]. eexists; reflexivity.
  - intros [= <-]. eexists; reflexivity.
  - intros [= <-]. eexists; reflexivity.
Qed.

(** C4, the inputs on which the claim fails: what [parseJSON] returns for a
    blank text, for a text that is not JSON, and for the JSON text [null] is
    the same value, [null]. *)
Lemma parseJSON_returns_same_null :
  blank (str "   ")
  /\ JSON.parse (str "{bad") = Throw (SyntaxError "Expected double-quoted property name")
  /\ (parseJSON (str "   ")).1 = (parseJSON (str "{bad")).1
  /\ (parseJSON (str "   ")).1 = Null
  /\ parseJSON (str "   ") = parseJSON (str "null").
Proof.
  split; [repeat constructor|]. split; [vm_compute; reflexivity|].
  split; [vm_compute; reflexivity|]. split; vm_compute; reflexivity.
Qed.

(** C4, amended.  [parseJSON] returns [null] both for a blank text and for
    a text that fails to parse, and the parsed value otherwise.  The two
    [null] outcomes differ only in what is shown: nothing for a blank text;
    for a failing one the [SyntaxError], with the parser's message, logged
    on the console, and an alert with a fixed message.  The blank text
    ["   "] gives [null] and shows nothing. *)
Theorem parseJSON_outcomes (input : jsstring) :
  (blank input -> parseJSON input = (Null, []))
  /\ (~ blank input ->
      forall error, JSON.parse input = Throw error ->
        (exists message, error = SyntaxError message)
        /\ parseJSON input =
             (Null, [console_error "JSON parsing error:" error; alert parse_alert]))
  /\ (~ blank input ->
      forall v, JSON.parse input = Normal v -> parseJSON input = (v, []))
  /\ parseJSON (str "   ") = (Null, []).
Proof.
  split; [apply parseJSON_blank|]. split; [|split].
  - intros Hb error He. split; [eapply parse_throws_SyntaxError, He|].
    rewrite (parseJSON_not_blank _ Hb), He. reflexivity.
  - intros Hb v Hv. rewrite (parseJSON_not_blank _ Hb), Hv. reflexivity.
  - vm_compute. reflexivity.
Qed.

Lemma not_blank_text (c : N) (r : jsstring) : white_space c = false -> ~ blank (c :: r).
Proof. intros Hc H. inversion H. congruence. Qed.

Lemma parseJSON_outcomes_witness :
  parseJSON [160%N; 9%N; 8195%N] = (Null, [])
  /\ parseJSON (str "{bad") =
       (Null, [console_error "JSON parsing error:"
                 (SyntaxError "Expected double-quoted property name");
               alert parse_alert])
  /\ parseJSON (str "[true]") = (Array [Bool true], []).
Proof.
  split; [|split].
  - apply (proj1 (parseJSON_outcomes [160%N; 9%N; 8195%N])). repeat constructor.
  - refine (proj2 (proj1 (proj2 (parseJSON_outcomes (str "{bad")))
             (not_blank_text 123 (str "bad") eq_refl) _ _)).
    vm_compute. reflexivity.
  - refine (proj1 (proj2 (proj2 (parseJSON_outcomes (str "[true]"))))
             (not_blank_text 91 (str "true]") eq_refl) _ _).
    vm_compute. reflexivity.
Defined.

(** ** The reciprocity computation *)

Lemma canonical_named (x : contact) : canonical x = true -> named x = true.
Proof.
  unfold canonical, named. destruct (username x); try discriminate. reflexivity.
Qed.

Lemma filterM_app {A} (p : A -> completion bool) (l1 l2 : list A) o1 o2 :
  filterM p l1 = Normal o1 -> filterM p l2 = Normal o2 ->
  filterM p (l1 ++ l2) = Normal (o1 ++ o2).
Proof.
  revert o1. induction l1 as [|a l1 IH]; intros o1; cbn.
  - intros [= <-] H. exact H.
  - intros H1 H2. apply bind_Normal in H1 as (keep & Hk & H1).
    apply bind_Normal in H1 as (rest & Hr & [= <-]).
    rewrite Hk. cbn. rewrite (IH rest Hr H2). cbn. destruct keep; reflexivity.
Qed.

Section Reciprocity.

Variable toLowerCase : jsstring -> jsstring.

Lemma lowered_named (x : contact) :
  named x = true -> lowered toLowerCase x = Normal (folded toLowerCase x).
Proof.
  unfold named, lowered, folded, name_of. destruct (username x); try discriminate.
  reflexivity.
Qed.

Lemma followersSet_named (followers : list contact) :
  forallb named followers = true ->
  followersSet toLowerCase followers = Normal (list_to_set (folded toLowerCase <$> followers)).
Proof.
  intros H. unfold followersSet.
  assert (Hm : mapM (lowered toLowerCase) followers = Normal (folded toLowerCase <$> followers)).
  { apply mapM_Normal. induction followers as [|y l IH]; cbn; [constructor|].
    cbn in H. apply andb_true_iff in H as [Hy Hl].
    constructor; [apply lowered_named, Hy | apply IH, Hl]. }
  rewrite Hm. reflexivity.
Qed.

Lemma notFollowingBack_named (following : list contact) (set : gset jsstring) :
  forallb named following = true ->
  notFollowingBack toLowerCase following set
  = Normal (filter (fun x => folded toLowerCase x ∉ set) following).
Proof.
  unfold notFollowingBack. induction following as [|x l IH]; [reflexivity|].
  intros H. cbn in H. apply andb_true_iff in H as [Hx Hl].
  cbn [filterM]. rewrite filter_cons, (lowered_named x Hx), (IH Hl).
  generalize (filter (fun x => folded toLowerCase x ∉ set) l). intros rest.
  cbn. unfold has. case_bool_decide; case_decide; try contradiction; reflexivity.
Qed.

Lemma reciprocity_named (following followers : list contact) :
  forallb named following = true -> forallb named followers = true ->
  reciprocity toLowerCase following followers
  = Normal (filter (fun x => folded toLowerCase x ∉ folded toLowerCase <$> followers) following).
Proof.
  intros Hf Hg. unfold reciprocity. rewrite (followersSet_named _ Hg). cbn.
  rewrite (notFollowingBack_named _ _ Hf). f_equal.
  apply list_filter_iff. intros x. rewrite elem_of_list_to_set. reflexivity.
Qed.

End Reciprocity.

(** C1.  For lists of records whose usernames are strings, as those of
    canonical records are, a record belongs to [notFollowingBack] exactly
    when it is a record of [following] whose case-folded username is not
    the case-folded username of any record of [followers].  With a case
    mapping that lowers Basic Latin letters, as [toLowerCase] does,
    following [[{username:"Bob"}]] against followers [[{username:"bob"}]]
    leaves nothing. *)
Theorem notFollowingBack_membership
    (toLowerCase : jsstring -> jsstring) (following followers : list contact) :
  forallb named following = true -> forallb named followers = true ->
  exists result,
    reciprocity toLowerCase following followers = Normal result
    /\ (forall x, x ∈ result <->
                  x ∈ following
                  /\ folded toLowerCase x ∉ folded toLowerCase <$> followers)
    /\ ((forall s, Forall (fun c => (c < 128)%N) s -> toLowerCase s = map ascii_lower s) ->
        reciprocity toLowerCase
          [{| username := Str (str "Bob"); href := Undefined |}]
          [{| username := Str (str "bob"); href := Undefined |}] = Normal []).
Proof.
  intros Hf Hg. eexists. split; [apply reciprocity_named; assumption|]. split.
  - intros x. rewrite list_elem_of_filter. tauto.
  - intros Hascii. rewrite reciprocity_named by reflexivity.
    cbn. unfold folded. cbn.
    rewrite !Hascii by (repeat constructor). reflexivity.
Qed.

Lemma lower_latin1_ascii (s : jsstring) :
  Forall (fun c => (c < 128)%N) s -> lower_latin1 s = map ascii_lower s.
Proof.
  unfold lower_latin1. induction 1 as [|c r Hc _ IH]; cbn; [reflexivity|].
  rewrite IH. f_equal. unfold lower_unit, ascii_lower.
  destruct (N.leb 65 c && N.leb c 90) eqn:H1; [reflexivity|]. cbn.
  destruct (N.leb_spec 192 c); [lia | reflexivity].
Qed.

Lemma notFollowingBack_membership_witness :
  exists result,
    reciprocity lower_latin1
      [{| username := Str (str "a"); href := Str (str "u/a") |};
       {| username := Str (str "b"); href := Str (str "u/b") |}]
      [{| username := Str (str "a"); href := Str (str "u/a") |}] = Normal result
    /\ result = [{| username := Str (str "b"); href := Str (str "u/b") |}]
    /\ reciprocity lower_latin1
          [{| username := Str (str "Bob"); href := Undefined |}]
          [{| username := Str (str "bob"); href := Undefined |}] = Normal [].
Proof.
  destruct (notFollowingBack_membership lower_latin1
      [{| username := Str (str "a"); href := Str (str "u/a") |};
       {| username := Str (str "b"); href := Str (str "u/b") |}]
      [{| username := Str (str "a"); href := Str (str "u/a") |}] eq_refl eq_refl)
    as (result & Hres & _ & Hbob).
  exists result. split; [exact Hres|]. split.
  - rewrite reciprocity_named in Hres by reflexivity.
    injection Hres as <-. vm_compute. reflexivity.
  - apply Hbob, lower_latin1_ascii.
Defined.

(** C2.  For lists of records whose usernames are strings, as those of
    canonical records are, [notFollowingBack] is a sublist of [following]:
    its records are records of [following], unchanged and in the same
    relative order.  Nothing of a [followers] record reaches it: any other
    list of followers with the same case-folded usernames gives the same
    result. *)
Theorem notFollowingBack_sublist
    (toLowerCase : jsstring -> jsstring) (following followers : list contact) :
  forallb named following = true -> forallb named followers = true ->
  exists result,
    reciprocity toLowerCase following followers = Normal result
    /\ result `sublist_of` following
    /\ (forall x, x ∈ result -> x ∈ following)
    /\ (forall followers',
          forallb named followers' = true ->
          (forall name, name ∈ folded toLowerCase <$> followers'
                        <-> name ∈ folded toLowerCase <$> followers) ->
          reciprocity toLowerCase following followers' = Normal result).
Proof.
  intros Hf Hg. eexists. split; [apply reciprocity_named; assumption|].
  split; [apply sublist_filter|]. split.
  - intros x Hx. apply list_elem_of_filter in Hx as [_ Hx]. exact Hx.
  - intros followers' Hg' Hsame. rewrite reciprocity_named by assumption.
    f_equal. apply list_filter_iff. intros x. rewrite Hsame. reflexivity.
Qed.

Lemma notFollowingBack_sublist_witness :
  exists result,
    reciprocity lower_latin1
      [{| username := Str (str "Ann"); href := Str (str "u/Ann") |};
       {| username := Str (str "Bob"); href := Str (str "u/Bob") |};
       {| username := Str (str "Cid"); href := Str (str "u/Cid") |}]
      [{| username := Str (str "BOB"); href := Str (str "u/other") |}] = Normal result
    /\ result `sublist_of`
         [{| username := Str (str "Ann"); href := Str (str "u/Ann") |};
          {| username := Str (str "Bob"); href := Str (str "u/Bob") |};
          {| username := Str (str "Cid"); href := Str (str "u/Cid") |}].
Proof.
  destruct (notFollowingBack_sublist lower_latin1
      [{| username := Str (str "Ann"); href := Str (str "u/Ann") |};
       {| username := Str (str "Bob"); href := Str (str "u/Bob") |};
       {| username := Str (str "Cid"); href := Str (str "u/Cid") |}]
      [{| username := Str (str "BOB"); href := Str (str "u/other") |}] eq_refl eq_refl)
    as (result & Hres & Hsub & _).
  exists result. split; [exact Hres | exact Hsub].
Defined.

(** C10.  Nothing is deduplicated.  In [extractUsernames] every element
    that derives a truthy username contributes its own record, at its own
    place between the records of the elements before and after it; in the
    reciprocity computation every record of [following] whose case-folded
    username is not in the lookup set is kept, at its own place.  So three
    entries deriving [a], [A] and [a] give three records, and all three are
    reported when no follower is called [a]. *)
Theorem no_deduplication (toLowerCase : jsstring -> jsstring) :
  (forall l1 item l2 o1 c o2,
     extractUsernames (Array l1) = Normal o1 ->
     to_contact item = Normal c -> truthy (username c) = true ->
     extractUsernames (Array l2) = Normal o2 ->
     extractUsernames (Array (l1 ++ item :: l2)) = Normal (o1 ++ c :: o2))
  /\ (forall followers set l1 x l2 o1 o2 s,
        followersSet toLowerCase followers = Normal set ->
        reciprocity toLowerCase l1 followers = Normal o1 ->
        username x = Str s -> toLowerCase s ∉ set ->
        reciprocity toLowerCase l2 followers = Normal o2 ->
        reciprocity toLowerCase (l1 ++ x :: l2) followers = Normal (o1 ++ x :: o2))
  /\ extractUsernames (Array [Object [(str "title", Str (str "a"))];
                              Object [(str "title", Str (str "A"))];
                              Object [(str "title", Str (str "a"))]])
     = Normal [{| username := Str (str "a"); href := Str [] |};
               {| username := Str (str "A"); href := Str [] |};
               {| username := Str (str "a"); href := Str [] |}]
  /\ reciprocity lower_latin1
       [{| username := Str (str "a"); href := Str [] |};
        {| username := Str (str "A"); href := Str [] |};
        {| username := Str (str "a"); href := Str [] |}]
       [{| username := Str (str "b"); href := Str [] |}]
     = Normal [{| username := Str (str "a"); href := Str [] |};
               {| username := Str (str "A"); href := Str [] |};
               {| username := Str (str "a"); href := Str [] |}].
Proof.
  split; [|split; [|split]].
  - intros l1 item l2 o1 c o2 H1 Hc Hk H2.
    apply extractUsernames_Array in H1 as (m1 & Hm1 & ->).
    apply extractUsernames_Array in H2 as (m2 & Hm2 & ->).
    apply extractUsernames_Array. exists (m1 ++ c :: m2). split.
    + apply Forall2_app; [exact Hm1|]. constructor; [exact Hc | exact Hm2].
    + rewrite filter_app, filter_cons_True by exact Hk. reflexivity.
  - intros followers set l1 x l2 o1 o2 s Hset H1 Hx Hs H2.
    unfold reciprocity in *. rewrite Hset in *. cbn in *.
    unfold notFollowingBack in *. apply filterM_app; [exact H1|].
    assert (Hl : lowered toLowerCase x = Normal (toLowerCase s))
      by (unfold lowered; rewrite Hx; reflexivity).
    cbn [filterM]. cbv beta. rewrite Hl, H2. cbn. unfold has.
    case_bool_decide; [contradiction | reflexivity].
  - reflexivity.
  - rewrite reciprocity_named by reflexivity. vm_compute. reflexivity.
Qed.

Lemma no_deduplication_witness :
  extractUsernames (Array ([Object [(str "title", Str (str "a"))]]
                           ++ Object [(str "title", Str (str "a"))] :: []))
  = Normal ([{| username := Str (str "a"); href := Str [] |}]
            ++ {| username := Str (str "a"); href := Str [] |} :: [])
  /\ reciprocity lower_latin1
       ([{| username := Str (str "a"); href := Str [] |}]
        ++ {| username := Str (str "a"); href := Str [] |} :: []) []
     = Normal ([{| username := Str (str "a"); href := Str [] |}]
               ++ {| username := Str (str "a"); href := Str [] |} :: []).
Proof.
  split.
  - exact (proj1 (no_deduplication lower_latin1)
             [Object [(str "title", Str (str "a"))]] (Object [(str "title", Str (str "a"))]) []
             _ _ [] eq_refl eq_refl eq_refl eq_refl).
  - refine (proj1 (proj2 (no_deduplication lower_latin1))
             [] ∅ [{| username := Str (str "a"); href := Str [] |}]
             {| username := Str (str "a"); href := Str [] |} [] _ [] (str "a")
             eq_refl eq_refl eq_refl _ eq_refl).
    apply not_elem_of_empty.
Defined.

(** ** [analyze] *)

Lemma parseJSON_falsy (input : jsstring) (v : jsval) :
  JSON.parse input = Normal v -> truthy v = false ->
  exists v', parseJSON input = (v', []) /\ truthy v' = false.
Proof.
  intros Hv Hfalsy. destruct (decide (blank input)) as [Hb|Hb].
  - exists Null. split; [apply parseJSON_blank, Hb | reflexivity].
  - exists v. split; [|exact Hfalsy]. rewrite (parseJSON_not_blank _ Hb), Hv. reflexivity.
Qed.

Lemma parseJSON_silent (other : jsstring) :
  blank other \/ (exists w, JSON.parse other = Normal w) -> (parseJSON other).2 = [].
Proof.
  intros [Hb | [w Hw]].
  - rewrite (parseJSON_blank _ Hb). reflexivity.
  - destruct (decide (blank other)) as [Hb|Hb].
    + rewrite (parseJSON_blank _ Hb). reflexivity.
    + rewrite (parseJSON_not_blank _ Hb), Hw. reflexivity.
Qed.

Lemma parseJSON_log (text : jsstring) :
  (parseJSON text).2 = []
  \/ (exists message,
        (parseJSON text).2 =
          [console_error "JSON parsing error:" (SyntaxError message); alert parse_alert]).
Proof.
  destruct (decide (blank text)) as [Hb|Hb].
  - left. rewrite (parseJSON_blank _ Hb). reflexivity.
  - rewrite (parseJSON_not_blank _ Hb). destruct (JSON.parse text) as [v|e] eqn:Hp.
    + left. reflexivity.
    + right. apply parse_throws_SyntaxError in Hp as [message ->].
      exists message. reflexivity.
Qed.

Lemma analyze_guard_left (toLowerCase : jsstring -> jsstring) (input other : jsstring) v :
  parseJSON input = (v, []) -> truthy v = false ->
  analyze toLowerCase input other = (parseJSON other).2.
Proof.
  intros Hp Hv. unfold analyze. rewrite Hp. destruct (parseJSON other) as [w log].
  rewrite Hv. cbn. apply app_nil_r.
Qed.

Lemma analyze_guard_right (toLowerCase : jsstring -> jsstring) (input other : jsstring) v :
  parseJSON input = (v, []) -> truthy v = false ->
  analyze toLowerCase other input = (parseJSON other).2.
Proof.
  intros Hp Hv. unfold analyze. rewrite Hp. destruct (parseJSON other) as [w log].
  rewrite Hv. cbn. rewrite orb_true_r. apply app_nil_r.
Qed.

(** C9, the input on which the claim fails: the following text is [null],
    which parses to a falsy value, and the followers text is not JSON.
    Both texts are parsed before the guard, so the run is not silent: the
    parse error of the other text is logged and alerted. *)
Lemma analyze_falsy_parse_alerts :
  JSON.parse (str "null") = Normal Null
  /\ truthy Null = false
  /\ alert parse_alert ∈ analyze lower_latin1 (str "null") (str "{bad")
  /\ analyze lower_latin1 (str "null") (str "{bad") <> [].
Proof.
  split; [vm_compute; reflexivity|]. split; [reflexivity|]. split.
  - apply list_elem_of_In. vm_compute. right. left. reflexivity.
  - vm_compute. discriminate.
Qed.

(** C9, amended.  When one of the two texts parses to a falsy value,
    [analyze] stops at its guard, just as it does when that text is blank:
    the falsy text itself surfaces nothing, and what the run shows is what
    parsing the other text showed, that is nothing at all when the other
    text is blank or parses and the parse error of the other text
    otherwise; in no case the loading state, a result or an analysis
    error.  The texts [null], [0], [false] and the empty string literal are
    JSON and parse to falsy values. *)
Theorem analyze_falsy_parse
    (toLowerCase : jsstring -> jsstring) (input other : jsstring) (v : jsval) :
  JSON.parse input = Normal v -> truthy v = false ->
  analyze toLowerCase input other = (parseJSON other).2
  /\ analyze toLowerCase other input = (parseJSON other).2
  /\ (forall empty, blank empty ->
        analyze toLowerCase input other = analyze toLowerCase empty other
        /\ analyze toLowerCase other input = analyze toLowerCase other empty)
  /\ (blank other \/ (exists w, JSON.parse other = Normal w) ->
      analyze toLowerCase input other = [] /\ analyze toLowerCase other input = [])
  /\ (analyze toLowerCase input other = []
      \/ exists message,
           analyze toLowerCase input other =
             [console_error "JSON parsing error:" (SyntaxError message); alert parse_alert])
  /\ (JSON.parse (str "null") = Normal Null /\ truthy Null = false)
  /\ (JSON.parse (str "0") = Normal (Number 0) /\ truthy (Number 0) = false)
  /\ (JSON.parse (str "false") = Normal (Bool false) /\ truthy (Bool false) = false)
  /\ (JSON.parse [JSON.quote; JSON.quote] = Normal (Str []) /\ truthy (Str []) = false).
Proof.
  intros Hv Hfalsy.
  destruct (parseJSON_falsy input v Hv Hfalsy) as (v' & Hp & Hv').
  pose proof (analyze_guard_left toLowerCase input other v' Hp Hv') as H1.
  pose proof (analyze_guard_right toLowerCase input other v' Hp Hv') as H2.
  split; [exact H1|]. split; [exact H2|]. split; [|split; [|split]].
  - intros empty He. apply parseJSON_blank in He.
    rewrite H1, H2.
    rewrite (analyze_guard_left toLowerCase empty other Null He eq_refl).
    rewrite (analyze_guard_right toLowerCase empty other Null He eq_refl).
    split; reflexivity.
  - intros Ho. rewrite H1, H2, (parseJSON_silent _ Ho). split; reflexivity.
  - rewrite H1. apply parseJSON_log.
  - repeat split; vm_compute; reflexivity.
Qed.

Lemma analyze_falsy_parse_witness :
  analyze lower_latin1 (str "null") (str "[]") = []
  /\ analyze lower_latin1 (str "[]") (str "null") = [].
Proof.
  assert (Hnull : JSON.parse (str "null") = Normal Null) by (vm_compute; reflexivity).
  assert (Harr : JSON.parse (str "[]") = Normal (Array [])) by (vm_compute; reflexivity).
  destruct (analyze_falsy_parse lower_latin1 (str "null") (str "[]") Null Hnull eq_refl)
    as (_ & _ & _ & Hsilent & _).
  apply Hsilent. right. exists (Array []). exact Harr.
Defined.

(* ================================================================= *)
(** * Further properties *)

(** ** [extractUsernames] *)


Lemma to_contact_href (item : jsval) (c : contact) :
  to_contact item = Normal c -> href c = Str [] \/ truthy (href c) = true.
Proof.
  unfold to_contact, member. destruct (nullish item); [discriminate|].
  cbn. intros [= <-]. cbn. unfold or_else.
  destruct (truthy (opt_member _ K.href)) eqn:H; [right; exact H | left; reflexivity].
Qed.



Lemma well_formed_to_contact (item : jsval) (c : contact) :
  well_formed item c -> to_contact item = Normal c /\ keeps c.
Proof.
  intros (first & rest & name & Hsld & Hv & Hne & ->).
  assert (Hitem : nullish item = false).
  { destruct item; try reflexivity; discriminate Hsld. }
  unfold to_contact, member. rewrite Hitem. cbn. rewrite Hsld. cbn.
  assert (Ht : truthy (Str name) = true).
  { cbn. case_bool_decide; [contradiction | reflexivity]. }
  rewrite Hv. rewrite (or_else_truthy _ _ Ht), (or_else_truthy _ _ Ht).
  split; [reflexivity | exact Ht].
Qed.

Lemma well_formed_extract (items : list jsval) (records : list contact) :
  Forall2 well_formed items records ->
  extractUsernames (Array items) = Normal records.
Proof.
  intros H. apply extractUsernames_Array. exists records. split.
  - eapply Forall2_impl; [exact H|]. intros item c Hw.
    apply well_formed_to_contact, Hw.
  - symmetry. induction H as [|item c items records Hw _ IH]; [reflexivity|].
    rewrite filter_cons_True by (apply well_formed_to_contact in Hw as [_ Hk]; exact Hk).
    f_equal. exact IH.
Qed.

(** X2.  On entries of the export format, each with a non-empty string as
    the [value] of the first item of [string_list_data], [extractUsernames]
    returns one record per entry, in order and dropping none: the username
    is that [value] (whatever the [title]), the link the [href] beside it,
    or the empty string. *)
Theorem extractUsernames_well_formed (items : list jsval) (records : list contact) :
  Forall2 well_formed items records ->
  extractUsernames (Array items) = Normal records
  /\ length records = length items
  /\ Forall (fun c => exists name, username c = Str name /\ name <> []) records.
Proof.
  intros H. split; [apply well_formed_extract, H|]. split.
  - symmetry. eapply Forall2_length, H.
  - induction H as [|item c items records Hw _ IH]; constructor; [|exact IH].
    destruct Hw as (first & rest & name & _ & _ & Hne & ->). exists name. auto.
Qed.

Lemma extractUsernames_well_formed_witness :
  extractUsernames
    (Array [Object [(str "title", Str (str "ignored"));
                    (str "string_list_data",
                     Array [Object [(str "href", Str (str "u/a")); (str "value", Str (str "a"))]])];
            Object [(str "string_list_data", Array [Object [(str "value", Str (str "b"))]])]])
  = Normal [{| username := Str (str "a"); href := Str (str "u/a") |};
            {| username := Str (str "b"); href := Str [] |}].
Proof.
  apply extractUsernames_well_formed.
  constructor; [|constructor; [|constructor]].
  - exists (Object [(str "href", Str (str "u/a")); (str "value", Str (str "a"))]), [], (str "a").
    repeat split; discriminate.
  - exists (Object [(str "value", Str (str "b"))]), [], (str "b").
    repeat split; discriminate.
Defined.

(** ** The reciprocity computation *)

Lemma lowered_not_named (toLowerCase : jsstring -> jsstring) (x : contact) :
  named x = false -> lowered toLowerCase x = Throw TypeError.
Proof.
  unfold named, lowered. destruct (username x); try reflexivity. discriminate.
Qed.

Lemma mapM_lowered_throws (toLowerCase : jsstring -> jsstring) (l : list contact) :
  forallb named l = false -> mapM (lowered toLowerCase) l = Throw TypeError.
Proof.
  induction l as [|x l IH]; cbn; [discriminate|].
  destruct (named x) eqn:Hx; cbn.
  - intros Hl. rewrite (lowered_named _ _ Hx). cbn. rewrite (IH Hl). reflexivity.
  - intros _. rewrite (lowered_not_named _ _ Hx). reflexivity.
Qed.

Lemma notFollowingBack_throws
    (toLowerCase : jsstring -> jsstring) (l : list contact) (set : gset jsstring) :
  forallb named l = false -> notFollowingBack toLowerCase l set = Throw TypeError.
Proof.
  unfold notFollowingBack. induction l as [|x l IH]; cbn; [discriminate|].
  destruct (named x) eqn:Hx; cbn.
  - intros Hl. rewrite (lowered_named _ _ Hx). cbn. rewrite (IH Hl). reflexivity.
  - intros _. rewrite (lowered_not_named _ _ Hx). reflexivity.
Qed.

Lemma reciprocity_cases
    (toLowerCase : jsstring -> jsstring) (following followers : list contact) :
  (forallb named following = true /\ forallb named followers = true
   /\ reciprocity toLowerCase following followers
      = Normal (filter (fun x => folded toLowerCase x ∉ folded toLowerCase <$> followers)
                  following))
  \/ ((forallb named following = false \/ forallb named followers = false)
      /\ reciprocity toLowerCase following followers = Throw TypeError).
Proof.
  destruct (forallb named followers) eqn:Hg.
  - destruct (forallb named following) eqn:Hf.
    + left. split; [reflexivity|]. split; [reflexivity|].
      apply reciprocity_named; assumption.
    + right. split; [left; reflexivity|].
      unfold reciprocity. rewrite (followersSet_named _ _ Hg). cbn.
      apply notFollowingBack_throws, Hf.
  - right. split; [right; reflexivity|].
    unfold reciprocity, followersSet. rewrite (mapM_lowered_throws _ _ Hg). reflexivity.
Qed.

Lemma reciprocity_Normal
    (toLowerCase : jsstring -> jsstring) (following followers result : list contact) :
  reciprocity toLowerCase following followers = Normal result ->
  forallb named following = true /\ forallb named followers = true
  /\ result = filter (fun x => folded toLowerCase x ∉ folded toLowerCase <$> followers)
                following.
Proof.
  intros H. destruct (reciprocity_cases toLowerCase following followers)
    as [(Hf & Hg & Hr) | [_ Hr]]; rewrite Hr in H; [|discriminate H].
  injection H as <-. auto.
Qed.

(** X3.  The reciprocity computation returns exactly when the username of
    every record of both lists is a string; a single username of another
    kind (a number, [true], an array, an object), in either list, makes it
    raise a [TypeError], since the value has no [toLowerCase]. *)
Theorem reciprocity_returns
    (toLowerCase : jsstring -> jsstring) (following followers : list contact) :
  (returns (reciprocity toLowerCase following followers)
   <-> forallb named following = true /\ forallb named followers = true)
  /\ (reciprocity toLowerCase following followers = Throw TypeError
      <-> forallb named following = false \/ forallb named followers = false).
Proof.
  destruct (reciprocity_cases toLowerCase following followers)
    as [(Hf & Hg & Hr) | [Hno Hr]]; rewrite Hr; split; split.
  - intros _. split; assumption.
  - intros _. eexists; reflexivity.
  - discriminate.
  - rewrite Hf, Hg. intros [H|H]; discriminate H.
  - intros [r Hn]. discriminate Hn.
  - intros [Hf Hg]. rewrite Hf, Hg in Hno. destruct Hno as [H|H]; discriminate H.
  - intros _. exact Hno.
  - reflexivity.
Qed.

(** X4.  When nobody follows, everybody followed is reported: against an
    empty list of followers the result is [following] itself; and an empty
    [following] reports nobody. *)
Theorem reciprocity_empty (toLowerCase : jsstring -> jsstring) (l : list contact) :
  forallb named l = true ->
  reciprocity toLowerCase l [] = Normal l
  /\ reciprocity toLowerCase [] l = Normal [].
Proof.
  intros Hl. split.
  - rewrite reciprocity_named by (exact Hl || reflexivity). f_equal.
    induction l as [|x l IH]; [reflexivity|].
    cbn in Hl. apply andb_true_iff in Hl as [_ Hl].
    rewrite filter_cons_True by (cbn; apply not_elem_of_nil). f_equal. apply IH, Hl.
  - rewrite reciprocity_named by (exact Hl || reflexivity). reflexivity.
Qed.

Lemma reciprocity_empty_witness :
  reciprocity lower_latin1
    [{| username := Str (str "a"); href := Str [] |};
     {| username := Str (str "b"); href := Str [] |}] []
  = Normal [{| username := Str (str "a"); href := Str [] |};
            {| username := Str (str "b"); href := Str [] |}].
Proof.
  exact (proj1 (reciprocity_empty lower_latin1
    [{| username := Str (str "a"); href := Str [] |};
     {| username := Str (str "b"); href := Str [] |}] eq_refl)).
Defined.

Lemma filter_none {A} (P : A -> Prop) `{!forall x, Decision (P x)} (l : list A) :
  (forall x, x ∈ l -> ~ P x) -> filter P l = [].
Proof.
  induction l as [|x l IH]; [reflexivity|]. intros Hall.
  rewrite filter_cons_False by (apply Hall; left).
  apply IH. intros y Hy. apply Hall. right. exact Hy.
Qed.

(** X5.  When the case-folded username of every record of [following] is
    the case-folded username of some follower, nobody is reported; so a
    list compared with itself, or with itself in another casing or order
    among other followers, gives the empty list. *)
Theorem reciprocity_covered
    (toLowerCase : jsstring -> jsstring) (following followers : list contact) :
  forallb named following = true -> forallb named followers = true ->
  (forall x, x ∈ following ->
             folded toLowerCase x ∈ folded toLowerCase <$> followers) ->
  reciprocity toLowerCase following followers = Normal []
  /\ reciprocity toLowerCase following following = Normal [].
Proof.
  intros Hf Hg Hcov. split.
  - rewrite reciprocity_named by assumption. f_equal.
    apply filter_none. intros x Hx Hn. apply Hn, Hcov, Hx.
  - rewrite reciprocity_named by assumption. f_equal.
    apply filter_none. intros x Hx Hn. apply Hn.
    apply list_elem_of_fmap. exists x. split; [reflexivity | exact Hx].
Qed.

Lemma reciprocity_covered_witness :
  reciprocity lower_latin1
    [{| username := Str (str "Ann"); href := Str [] |};
     {| username := Str (str "bob"); href := Str [] |}]
    [{| username := Str (str "BOB"); href := Str [] |};
     {| username := Str (str "cid"); href := Str [] |};
     {| username := Str (str "ann"); href := Str [] |}] = Normal [].
Proof.
  refine (proj1 (reciprocity_covered lower_latin1
    [{| username := Str (str "Ann"); href := Str [] |};
     {| username := Str (str "bob"); href := Str [] |}]
    [{| username := Str (str "BOB"); href := Str [] |};
     {| username := Str (str "cid"); href := Str [] |};
     {| username := Str (str "ann"); href := Str [] |}] eq_refl eq_refl _)).
  intros x Hx. apply list_elem_of_In in Hx.
  destruct Hx as [<- | [<- | []]]; vm_compute.
  - right. right. left.
  - left.
Defined.

(** X6.  Reporting is idempotent: comparing the reported records with the
    same followers again reports all of them. *)
Theorem reciprocity_idempotent
    (toLowerCase : jsstring -> jsstring) (following followers result : list contact) :
  reciprocity toLowerCase following followers = Normal result ->
  reciprocity toLowerCase result followers = Normal result.
Proof.
  intros H. apply reciprocity_Normal in H as (Hf & Hg & ->).
  assert (Hn : forallb named
                 (filter (fun x => folded toLowerCase x ∉ folded toLowerCase <$> followers)
                    following) = true).
  { apply forallb_forall. intros x Hx. apply list_elem_of_In, list_elem_of_filter in Hx as [_ Hx].
    rewrite forallb_forall in Hf. apply Hf, list_elem_of_In, Hx. }
  rewrite reciprocity_named by assumption. f_equal.
  apply list_filter_filter_l. intros x Hx. exact Hx.
Qed.

Lemma reciprocity_idempotent_witness :
  reciprocity lower_latin1
    [{| username := Str (str "b"); href := Str (str "u/b") |}]
    [{| username := Str (str "a"); href := Str (str "u/a") |}]
  = Normal [{| username := Str (str "b"); href := Str (str "u/b") |}].
Proof.
  apply (reciprocity_idempotent lower_latin1
    [{| username := Str (str "a"); href := Str (str "u/a") |};
     {| username := Str (str "b"); href := Str (str "u/b") |}]).
  rewrite reciprocity_named by reflexivity. vm_compute. reflexivity.
Defined.

(** X7.  More followers never report more: the result against a longer
    list of followers is a sublist of the result against the shorter one,
    and the order of the followers does not matter. *)
Theorem reciprocity_more_followers
    (toLowerCase : jsstring -> jsstring)
    (following followers more result result' : list contact) :
  reciprocity toLowerCase following followers = Normal result ->
  reciprocity toLowerCase following (more ++ followers) = Normal result' ->
  result' `sublist_of` result
  /\ reciprocity toLowerCase following (followers ++ more) = Normal result'.
Proof.
  intros H H'. apply reciprocity_Normal in H as (Hf & Hg & ->).
  apply reciprocity_Normal in H' as (_ & Hg' & ->).
  split.
  - rewrite <- (list_filter_filter_l
        (fun x => folded toLowerCase x ∉ folded toLowerCase <$> more ++ followers)
        (fun x => folded toLowerCase x ∉ folded toLowerCase <$> followers)).
    + apply sublist_filter.
    + intros x Hx Hin. apply Hx. rewrite fmap_app. apply elem_of_app. right. exact Hin.
  - rewrite forallb_app in Hg'. apply andb_true_iff in Hg' as [Hm _].
    rewrite reciprocity_named by (try assumption; rewrite forallb_app, Hg, Hm; reflexivity).
    f_equal. apply list_filter_iff. intros x.
    rewrite !fmap_app, !elem_of_app. tauto.
Qed.

Lemma reciprocity_more_followers_witness :
  [{| username := Str (str "c"); href := Str [] |}]
    `sublist_of` [{| username := Str (str "b"); href := Str [] |};
                  {| username := Str (str "c"); href := Str [] |}].
Proof.
  refine (proj1 (reciprocity_more_followers lower_latin1
    [{| username := Str (str "a"); href := Str [] |};
     {| username := Str (str "b"); href := Str [] |};
     {| username := Str (str "c"); href := Str [] |}]
    [{| username := Str (str "A"); href := Str [] |}]
    [{| username := Str (str "B"); href := Str [] |}] _ _ _ _)).
  - rewrite reciprocity_named by reflexivity. vm_compute. reflexivity.
  - rewrite reciprocity_named by reflexivity. vm_compute. reflexivity.
Defined.

(** ** [parseJSON] *)

Lemma white_space_no_token (c : N) :
  white_space c = true -> JSON.ws c = false ->
  (c <> 91 /\ c <> 123 /\ c <> 34 /\ c <> 110 /\ c <> 116 /\ c <> 102
   /\ c <> 45 /\ c <> 48)%N
  /\ JSON.digit c = false.
Proof.
  unfold white_space, JSON.ws, JSON.digit. intros Hw Hj.
  rewrite !orb_true_iff, !andb_true_iff, !N.leb_le, !N.eqb_eq in Hw.
  rewrite !orb_false_iff, !N.eqb_neq in Hj.
  split; [lia|]. apply andb_false_iff. rewrite !N.leb_gt. lia.
Qed.

Lemma strip_prefix_head (a : N) (p : jsstring) (c : N) (r rest : jsstring) :
  JSON.strip_prefix (a :: p) (c :: r) = Some rest -> a = c.
Proof.
  cbn [JSON.strip_prefix]. destruct (N.eqb_spec a c); [auto | discriminate].
Qed.

Lemma value_white_space (fuel : nat) (c : N) (r : jsstring) :
  white_space c = true -> JSON.ws c = false ->
  JSON.value (S fuel) (c :: r) = JSON.Failed "Unexpected token".
Proof.
  intros Hw Hj.
  destruct (white_space_no_token c Hw Hj)
    as [(H1 & H2 & H3 & H4 & H5 & H6 & H7 & H8) Hd].
  assert (E1 : JSON.is_char c "[" = false) by (apply N.eqb_neq; exact H1).
  assert (E2 : JSON.is_char c "{" = false) by (apply N.eqb_neq; exact H2).
  assert (E3 : N.eqb c JSON.quote = false) by (apply N.eqb_neq; exact H3).
  assert (E7 : JSON.is_char c "-" = false) by (apply N.eqb_neq; exact H7).
  assert (E8 : JSON.is_char c "0" = false) by (apply N.eqb_neq; exact H8).
  assert (Hl : JSON.literal (c :: r) = None).
  { unfold JSON.literal.
    destruct (JSON.strip_prefix (str "null") (c :: r)) eqn:L1;
      [apply (strip_prefix_head 110 (str "ull")) in L1; congruence|].
    destruct (JSON.strip_prefix (str "true") (c :: r)) eqn:L2;
      [apply (strip_prefix_head 116 (str "rue")) in L2; congruence|].
    destruct (JSON.strip_prefix (str "false") (c :: r)) eqn:L3;
      [apply (strip_prefix_head 102 (str "alse")) in L3; congruence|].
    reflexivity. }
  assert (Hn : JSON.number (c :: r) = JSON.Failed "Unexpected token").
  { unfold JSON.number, JSON.sign. rewrite E7.
    unfold JSON.integer_part. rewrite E8, Hd. reflexivity. }
  cbn [JSON.value JSON.skip_ws]. rewrite Hj, E1, E2, E3, Hl, Hn. reflexivity.
Qed.

Lemma value_blank (fuel : nat) (text : jsstring) :
  blank text -> exists message, JSON.value (S fuel) text = JSON.Failed message.
Proof.
  induction 1 as [|c r Hc _ IH].
  - eexists. reflexivity.
  - destruct (JSON.ws c) eqn:Hj.
    + destruct IH as [m Hm]. exists m. rewrite <- Hm.
      cbn [JSON.value JSON.skip_ws]. rewrite Hj. reflexivity.
    + eexists. apply value_white_space; assumption.
Qed.

Lemma parse_blank (text : jsstring) :
  blank text -> exists message, JSON.parse text = Throw (SyntaxError message).
Proof.
  intros Hb. unfold JSON.parse, JSON.fuel_for.
  replace (2 * length text + 2) with (S (2 * length text + 1)) by lia.
  destruct (value_blank (2 * length text + 1) text Hb) as [m ->].
  exists m. reflexivity.
Qed.

(** X8.  [parseJSON] returns a truthy value exactly when the text is JSON
    for that value, and then shows nothing; it raises its alert only for a
    text that is neither blank nor JSON, and then returns [null].  A blank
    text is never JSON, so the blank test only spares the alert. *)
Theorem parseJSON_truthy (text : jsstring) :
  (forall v, truthy v = true ->
     ((parseJSON text).1 = v <-> JSON.parse text = Normal v))
  /\ (truthy (parseJSON text).1 = true -> (parseJSON text).2 = [])
  /\ ((parseJSON text).2 <> [] ->
      (parseJSON text).1 = Null /\ ~ blank text
      /\ exists message, JSON.parse text = Throw (SyntaxError message))
  /\ (blank text -> exists message, JSON.parse text = Throw (SyntaxError message)).
Proof.
  destruct (decide (blank text)) as [Hb|Hb].
  - rewrite (parseJSON_blank _ Hb). destruct (parse_blank _ Hb) as [m Hm]. cbn.
    split; [|split; [|split]].
    + intros v Hv. rewrite Hm. split; [intros <-; discriminate Hv | discriminate].
    + discriminate.
    + intros H. destruct H. reflexivity.
    + intros _. exists m. exact Hm.
  - rewrite (parseJSON_not_blank _ Hb). destruct (JSON.parse text) as [w|e] eqn:Hp; cbn.
    + split; [|split; [|split]].
      * intros v _. split; [intros ->; reflexivity | intros [= ->]; reflexivity].
      * reflexivity.
      * intros H. destruct H. reflexivity.
      * intros H. contradiction.
    + apply parse_throws_SyntaxError in Hp as [m ->].
      split; [|split; [|split]].
      * intros v Hv. split; [intros <-; discriminate Hv | discriminate].
      * discriminate.
      * intros _. split; [reflexivity|]. split; [exact Hb|]. exists m. reflexivity.
      * intros H. contradiction.
Qed.

Lemma parseJSON_truthy_witness :
  (parseJSON (str "[]")).2 = []
  /\ (parseJSON (str "{bad")).1 = Null.
Proof.
  split.
  - apply (parseJSON_truthy (str "[]")). vm_compute. reflexivity.
  - apply (parseJSON_truthy (str "{bad")). vm_compute. discriminate.
Defined.

(** ** [analyze] *)

Lemma analysis_normalized (toLowerCase : jsstring -> jsstring) (ra rb : jsval) :
  analysis toLowerCase ra rb =
    match normalized ra K.relationships_following with
    | Throw e => Throw e
    | Normal f =>
        match normalized rb K.relationships_followers with
        | Throw e => Throw e
        | Normal g =>
            match reciprocity toLowerCase f g with
            | Throw e => Throw e
            | Normal n => Normal (f, g, n)
            end
        end
    end.
Proof.
  unfold analysis, normalized.
  destruct (unwrap ra K.relationships_following) as [da|e]; [|reflexivity]. cbn.
  destruct (extractUsernames da) as [f|e]; [|reflexivity]. cbn.
  destruct (unwrap rb K.relationships_followers) as [db|e]; [|reflexivity]. cbn.
  destruct (extractUsernames db) as [g|e]; [|reflexivity]. cbn.
  destruct (reciprocity toLowerCase f g); reflexivity.
Qed.

Lemma to_contact_throws (item : jsval) (e : jserror) :
  to_contact item = Throw e -> e = TypeError.
Proof.
  unfold to_contact, member. destruct (nullish item); cbn; [|discriminate].
  intros H. injection H as <-. reflexivity.
Qed.

Lemma mapM_to_contact_throws (items : list jsval) (e : jserror) :
  mapM to_contact items = Throw e -> e = TypeError.
Proof.
  induction items as [|item items IH]; cbn; [discriminate|].
  destruct (to_contact item) as [c|e1] eqn:Hc; cbn.
  - destruct (mapM to_contact items) as [cs|e']; cbn; [discriminate|].
    intros H. injection H as ->. apply IH. reflexivity.
  - intros H. injection H as ->. eapply to_contact_throws, Hc.
Qed.

Lemma normalized_throws (root : jsval) (k : K.key) (e : jserror) :
  normalized root k = Throw e -> e = TypeError.
Proof.
  unfold normalized, unwrap, member. destruct (nullish root); cbn.
  - intros [= <-]. reflexivity.
  - destruct (or_else (get root k) root); cbn; try discriminate.
    destruct (mapM to_contact items) as [cs|e'] eqn:Hm; cbn; [discriminate|].
    intros H. injection H as ->. eapply mapM_to_contact_throws, Hm.
Qed.

Lemma reciprocity_throws_TypeError
    (toLowerCase : jsstring -> jsstring) (f g : list contact) (e : jserror) :
  reciprocity toLowerCase f g = Throw e -> e = TypeError.
Proof.
  intros H. destruct (reciprocity_cases toLowerCase f g) as [(_ & _ & Hr) | [_ Hr]];
    rewrite Hr in H; [discriminate H|]. injection H as <-. reflexivity.
Qed.

Lemma analysis_throws
    (toLowerCase : jsstring -> jsstring) (ra rb : jsval) (e : jserror) :
  analysis toLowerCase ra rb = Throw e -> e = TypeError.
Proof.
  rewrite analysis_normalized.
  destruct (normalized ra K.relationships_following) as [f|e1] eqn:Hf.
  - destruct (normalized rb K.relationships_followers) as [g|e2] eqn:Hg.
    + destruct (reciprocity toLowerCase f g) as [n|e3] eqn:Hn; [discriminate|].
      intros H. injection H as ->. eapply reciprocity_throws_TypeError, Hn.
    + intros H. injection H as ->. eapply normalized_throws, Hg.
  - intros H. injection H as ->. eapply normalized_throws, Hf.
Qed.

Lemma createRow_cases (highlight : bool) (x : contact) :
  Render.createRow highlight x
  = if displayable x then Normal (row_of highlight x) else Throw TypeError.
Proof.
  unfold Render.createRow, displayable, row_of, to_string.
  destruct (convertible (username x)); cbn; [|reflexivity].
  destruct (truthy (href x)); cbn; [|reflexivity].
  destruct (convertible (href x)); reflexivity.
Qed.

Lemma createTable_cases (data : list contact) (highlight : bool) :
  Render.createTable data highlight
  = if forallb displayable data then Normal (row_of highlight <$> data)
    else Throw TypeError.
Proof.
  unfold Render.createTable. induction data as [|x l IH]; [reflexivity|].
  cbn [mapM forallb]. change (mapM (Render.createRow highlight) l)
    with (mapM (Render.createRow highlight) l) in IH.
  rewrite createRow_cases. destruct (displayable x); cbn; [|reflexivity].
  rewrite IH. destruct (forallb displayable l); reflexivity.
Qed.

Lemma createSection_cases (title : string) (data : list contact) (highlight : bool)
    (icon : string) :
  Render.createSection title data highlight icon
  = if forallb displayable data then Normal (section_of title data highlight icon)
    else Throw TypeError.
Proof.
  unfold Render.createSection, section_of. destruct data as [|x l]; [reflexivity|].
  cbn [length Nat.ltb Nat.leb]. rewrite createTable_cases.
  destruct (forallb displayable (x :: l)); reflexivity.
Qed.

Lemma displayResults_cases (f g n : list contact) :
  Render.displayResults f g n
  = if forallb displayable (f ++ g ++ n)
    then Normal [section_of "Following" f false "👥";
                 section_of "Followers" g false "👤";
                 section_of "Не підписані у відповідь" n true "⚠️"]
    else Throw TypeError.
Proof.
  unfold Render.displayResults. rewrite !createSection_cases, !forallb_app.
  destruct (forallb displayable f); cbn; [|reflexivity].
  destruct (forallb displayable g); cbn; [|reflexivity].
  destruct (forallb displayable n); reflexivity.
Qed.

Lemma deferred_cases (toLowerCase : jsstring -> jsstring) (ra rb : jsval) :
  (exists f g n sections,
     analysis toLowerCase ra rb = Normal (f, g, n)
     /\ Render.displayResults f g n = Normal sections
     /\ deferred toLowerCase ra rb = [displayResults f g n; reset_button])
  \/ ((analysis toLowerCase ra rb = Throw TypeError
       \/ exists f g n,
            analysis toLowerCase ra rb = Normal (f, g, n)
            /\ Render.displayResults f g n = Throw TypeError)
      /\ show_loading :: deferred toLowerCase ra rb = analysis_failure).
Proof.
  unfold deferred. destruct (analysis toLowerCase ra rb) as [[[f g] n]|e] eqn:Ha.
  - pose proof (displayResults_cases f g n) as Hd.
    destruct (forallb displayable (f ++ g ++ n)).
    + left. exists f, g, n. eexists. split; [reflexivity|]. split; [exact Hd|].
      cbn -[Render.displayResults]. rewrite Hd. reflexivity.
    + right. split; [right; exists f, g, n; split; [reflexivity | exact Hd]|].
      cbn -[Render.displayResults]. rewrite Hd. reflexivity.
  - right. apply analysis_throws in Ha as ->. split; [left|]; reflexivity.
Qed.

Lemma parseJSON_cases (text : jsstring) :
  (blank text /\ parseJSON text = (Null, []))
  \/ (~ blank text /\ exists v, JSON.parse text = Normal v /\ parseJSON text = (v, []))
  \/ (~ blank text
      /\ exists message,
           JSON.parse text = Throw (SyntaxError message)
           /\ parseJSON text =
                (Null, [console_error "JSON parsing error:" (SyntaxError message);
                        alert parse_alert])).
Proof.
  destruct (decide (blank text)) as [Hb|Hb].
  - left. split; [exact Hb | apply parseJSON_blank, Hb].
  - right. rewrite (parseJSON_not_blank _ Hb).
    destruct (JSON.parse text) as [v|e] eqn:Hp.
    + left. split; [exact Hb|]. exists v. split; reflexivity.
    + right. split; [exact Hb|]. apply parse_throws_SyntaxError in Hp as [m ->].
      exists m. split; reflexivity.
Qed.

Lemma parseJSON_value_log (text : jsstring) :
  parse_report (parseJSON text).2
  /\ (truthy (parseJSON text).1 = true ->
      (parseJSON text).2 = [] /\ JSON.parse text = Normal (parseJSON text).1).
Proof.
  destruct (parseJSON_cases text) as [[_ ->] | [(_ & v & Hv & ->) | (_ & m & Hm & ->)]]; cbn.
  - split; [left; reflexivity | discriminate].
  - split; [left; reflexivity |]. intros _. split; [reflexivity | exact Hv].
  - split; [right; exists m; reflexivity | discriminate].
Qed.

Lemma analyze_cases (toLowerCase : jsstring -> jsstring) (a b : jsstring) :
  ((truthy (parseJSON a).1 = false \/ truthy (parseJSON b).1 = false)
   /\ analyze toLowerCase a b = (parseJSON a).2 ++ (parseJSON b).2)
  \/ (exists ra rb,
        JSON.parse a = Normal ra /\ JSON.parse b = Normal rb
        /\ truthy ra = true /\ truthy rb = true
        /\ analyze toLowerCase a b = show_loading :: deferred toLowerCase ra rb).
Proof.
  unfold analyze.
  destruct (parseJSON_value_log a) as [_ Ha]. destruct (parseJSON_value_log b) as [_ Hb].
  destruct (parseJSON a) as [ra la]. destruct (parseJSON b) as [rb lb]. cbn in *.
  destruct (truthy ra) eqn:Hra; cbn.
  - destruct (truthy rb) eqn:Hrb; cbn.
    + right. destruct (Ha eq_refl) as [-> Hpa]. destruct (Hb eq_refl) as [-> Hpb].
      exists ra, rb. auto.
    + left. split; [right; reflexivity|]. rewrite app_nil_r. reflexivity.
  - left. split; [left; reflexivity|]. rewrite app_nil_r. reflexivity.
Qed.

(** X9.  Every run of [analyze] is of one of three kinds.  It stops at the
    guard, having shown only what parsing the two texts showed; or it shows
    the loading state, one result and the button reset; or, the analysis
    or the display of its result having raised an error, it shows the
    loading state, the error and its alert, the button reset and the
    results cleared.  So an analysis runs only when neither text raised
    a parse alert, the loading state is always followed by the reset of the
    button, and a result is never shown together with an error. *)
Theorem analyze_trace (toLowerCase : jsstring -> jsstring) (a b : jsstring) :
  (exists log1 log2,
     parse_report log1 /\ parse_report log2 /\ analyze toLowerCase a b = log1 ++ log2)
  \/ (exists f g n,
        analyze toLowerCase a b = [show_loading; displayResults f g n; reset_button])
  \/ analyze toLowerCase a b = analysis_failure.
Proof.
  destruct (analyze_cases toLowerCase a b) as [[_ H] | (ra & rb & _ & _ & _ & _ & H)].
  - left. exists (parseJSON a).2, (parseJSON b).2.
    split; [apply parseJSON_value_log|]. split; [apply parseJSON_value_log | exact H].
  - right. rewrite H.
    destruct (deferred_cases toLowerCase ra rb) as [(f & g & n & _ & _ & _ & ->) | [_ ->]].
    + left. exists f, g, n. reflexivity.
    + right. reflexivity.
Qed.

(** X10.  A text that is not JSON stops the analysis whatever the other
    text is: both texts are parsed before either is tested, so the trace is
    the parse report of the following text followed by that of the
    followers text, two alerts when both are malformed, and nothing else. *)
Theorem analyze_malformed
    (toLowerCase : jsstring -> jsstring) (bad other : jsstring) (e : jserror) :
  ~ blank bad -> JSON.parse bad = Throw e ->
  analyze toLowerCase bad other
    = [console_error "JSON parsing error:" e; alert parse_alert] ++ (parseJSON other).2
  /\ analyze toLowerCase other bad
     = (parseJSON other).2 ++ [console_error "JSON parsing error:" e; alert parse_alert]
  /\ analyze toLowerCase bad bad
     = [console_error "JSON parsing error:" e; alert parse_alert;
        console_error "JSON parsing error:" e; alert parse_alert].
Proof.
  intros Hb He.
  assert (Hp : parseJSON bad
               = (Null, [console_error "JSON parsing error:" e; alert parse_alert])).
  { rewrite (parseJSON_not_blank _ Hb), He. reflexivity. }
  unfold analyze. rewrite Hp. destruct (parseJSON other) as [v log]. cbn.
  rewrite orb_true_r, !app_nil_r. auto.
Qed.

Lemma analyze_malformed_witness :
  analyze lower_latin1 (str "{bad") (str "[1,]")
  = [console_error "JSON parsing error:" (SyntaxError "Expected double-quoted property name");
     alert parse_alert;
     console_error "JSON parsing error:" (SyntaxError "Unexpected token");
     alert parse_alert].
Proof.
  assert (Hb : ~ blank (str "{bad")) by (apply (not_blank_text 123 (str "bad")); reflexivity).
  assert (He : JSON.parse (str "{bad")
               = Throw (SyntaxError "Expected double-quoted property name"))
    by (vm_compute; reflexivity).
  rewrite (proj1 (analyze_malformed lower_latin1 (str "{bad") (str "[1,]") _ Hb He)).
  vm_compute. reflexivity.
Defined.

Lemma normalized_Normal (root : jsval) (k : K.key) (out : list contact) :
  normalized root k = Normal out ->
  Forall keeps out /\ Forall (fun c => href c = Str [] \/ truthy (href c) = true) out.
Proof.
  unfold normalized. intros H. apply bind_Normal in H as (d & _ & H).
  destruct d as [| |b|q|s|items|members]; cbn in H;
    try (injection H as <-; split; constructor).
  apply extractUsernames_Array in H as (mapped & Hm & ->).
  split; apply Forall_forall; intros c Hc; apply list_elem_of_filter in Hc as [Hk Hc];
    [exact Hk|].
  apply list_elem_of_lookup in Hc as [i Hi].
  destruct (Forall2_lookup_r _ _ _ _ _ Hm Hi) as (item & _ & Hitem).
  eapply to_contact_href, Hitem.
Qed.





Lemma exports_normalized (root : jsval) (k : K.key) (items : list jsval) :
  exports root k items -> normalized root k = extractUsernames (Array items).
Proof.
  intros [-> | (members & -> & Hp)]; [reflexivity|].
  unfold normalized, unwrap, member. cbn. rewrite Hp. reflexivity.
Qed.

Lemma well_formed_named (items : list jsval) (records : list contact) :
  Forall2 well_formed items records -> forallb named records = true.
Proof.
  induction 1 as [|item c items records Hw _ IH]; [reflexivity|].
  cbn. rewrite IH. destruct Hw as (first & rest & name & _ & _ & _ & ->). reflexivity.
Qed.

Lemma exports_truthy (root : jsval) (k : K.key) (items : list jsval) :
  exports root k items -> truthy root = true.
Proof. intros [-> | (members & -> & _)]; reflexivity. Qed.

Lemma parseJSON_parsed (text : jsstring) (v : jsval) :
  JSON.parse text = Normal v -> parseJSON text = (v, []).
Proof.
  intros Hv. destruct (parseJSON_cases text)
    as [[Hb _] | [(_ & w & Hw & ->) | (_ & m & Hm & _)]].
  - destruct (parse_blank _ Hb) as [m Hm]. congruence.
  - congruence.
  - congruence.
Qed.

Lemma forallb_filter {A} (p : A -> bool) (P : A -> Prop) `{!forall x, Decision (P x)}
    (l : list A) :
  forallb p l = true -> forallb p (filter P l) = true.
Proof.
  rewrite !forallb_forall. intros Hall x Hx.
  apply list_elem_of_In, list_elem_of_filter in Hx as [_ Hx]. apply Hall, list_elem_of_In, Hx.
Qed.

Lemma displayable_result (f g : list contact) (P : contact -> Prop)
    `{!forall x, Decision (P x)} :
  forallb displayable (f ++ g ++ filter P f) = forallb displayable (f ++ g).
Proof.
  rewrite !forallb_app. destruct (forallb displayable f) eqn:Hf; [|reflexivity].
  rewrite (forallb_filter _ P f Hf), andb_true_r. reflexivity.
Qed.

(** X12.  End to end, on two texts in the export format (for each, the
    bare array of entries or the object holding it under its key, every
    entry with a non-empty string as [value]): when every link converts to
    a string, [analyze] shows the loading state, then one result, then
    resets the button; the result lists one record per entry of each text,
    in order, and as third list the followed records whose case-folded
    username no follower has.  When some link does not convert (an object
    with a property [toString], say), the display raises and the run ends
    as a failed analysis, the results cleared. *)
Theorem analyze_exports
    (toLowerCase : jsstring -> jsstring) (a b : jsstring) (ra rb : jsval)
    (items_a items_b : list jsval) (f g : list contact) :
  JSON.parse a = Normal ra -> JSON.parse b = Normal rb ->
  exports ra K.relationships_following items_a ->
  exports rb K.relationships_followers items_b ->
  Forall2 well_formed items_a f -> Forall2 well_formed items_b g ->
  analyze toLowerCase a b
  = if forallb displayable (f ++ g)
    then [show_loading;
          displayResults f g
            (filter (fun x => folded toLowerCase x ∉ folded toLowerCase <$> g) f);
          reset_button]
    else analysis_failure.
Proof.
  intros Ha Hb Ea Eb Wa Wb.
  unfold analyze. rewrite (parseJSON_parsed _ _ Ha), (parseJSON_parsed _ _ Hb).
  rewrite (exports_truthy _ _ _ Ea), (exports_truthy _ _ _ Eb). cbn.
  unfold deferred. rewrite analysis_normalized.
  rewrite (exports_normalized _ _ _ Ea), (exports_normalized _ _ _ Eb).
  rewrite (well_formed_extract _ _ Wa), (well_formed_extract _ _ Wb).
  rewrite reciprocity_named by (eapply well_formed_named; eassumption).
  cbn -[Render.displayResults]. rewrite displayResults_cases, displayable_result.
  destruct (forallb displayable (f ++ g)); reflexivity.
Qed.

Lemma entry_well_formed (name link : jsstring) :
  name <> [] ->
  well_formed
    (Object [(str "string_list_data",
              Array [Object [(str "href", Str link); (str "value", Str name)]])])
    {| username := Str name;
       href := if truthy (Str link) then Str link else Str [] |}.
Proof.
  intros Hn. exists (Object [(str "href", Str link); (str "value", Str name)]), [], name.
  split; [reflexivity|]. split; [reflexivity|]. split; [exact Hn | reflexivity].
Qed.

Lemma analyze_exports_witness :
  analyze lower_latin1
    (json_text "{'relationships_following':[{'string_list_data':[{'href':'u/Ann','value':'Ann'}]},{'string_list_data':[{'href':'u/bob','value':'bob'}]}]}")
    (json_text "[{'string_list_data':[{'href':'u/ANN','value':'ANN'}]}]")
  = [show_loading;
     displayResults
       [{| username := Str (str "Ann"); href := Str (str "u/Ann") |};
        {| username := Str (str "bob"); href := Str (str "u/bob") |}]
       [{| username := Str (str "ANN"); href := Str (str "u/ANN") |}]
       [{| username := Str (str "bob"); href := Str (str "u/bob") |}];
     reset_button].
Proof.
  assert (Hw : forall name link, name <> [] -> truthy (Str link) = true ->
             well_formed
               (Object [(str "string_list_data",
                         Array [Object [(str "href", Str link); (str "value", Str name)]])])
               {| username := Str name; href := Str link |}).
  { intros name link Hn Hl. pose proof (entry_well_formed name link Hn) as H.
    rewrite Hl in H. exact H. }
  pose (entry := fun name link : string =>
          Object [(str "string_list_data",
                   Array [Object [(str "href", Str (str link));
                                  (str "value", Str (str name))]])]).
  rewrite (analyze_exports lower_latin1 _ _
    (Object [(str "relationships_following", Array [entry "Ann" "u/Ann"; entry "bob" "u/bob"])])
    (Array [entry "ANN" "u/ANN"])
    [entry "Ann" "u/Ann"; entry "bob" "u/bob"] [entry "ANN" "u/ANN"]
    [{| username := Str (str "Ann"); href := Str (str "u/Ann") |};
     {| username := Str (str "bob"); href := Str (str "u/bob") |}]
    [{| username := Str (str "ANN"); href := Str (str "u/ANN") |}]).
  - vm_compute. reflexivity.
  - vm_compute. reflexivity.
  - vm_compute. reflexivity.
  - right. eexists. split; reflexivity.
  - left. reflexivity.
  - constructor; [apply Hw; [discriminate | reflexivity]|].
    constructor; [apply Hw; [discriminate | reflexivity]|]. constructor.
  - constructor; [apply Hw; [discriminate | reflexivity]|]. constructor.
Defined.

(** X13.  The wrapper is transparent: a root object holding the array of
    entries under its key is analysed exactly as the bare array is, for
    both texts, whatever else the object holds. *)
Theorem analysis_exports
    (toLowerCase : jsstring -> jsstring) (ra rb : jsval) (items_a items_b : list jsval) :
  exports ra K.relationships_following items_a ->
  exports rb K.relationships_followers items_b ->
  analysis toLowerCase ra rb = analysis toLowerCase (Array items_a) (Array items_b)
  /\ deferred toLowerCase ra rb = deferred toLowerCase (Array items_a) (Array items_b).
Proof.
  intros Ea Eb.
  assert (H : analysis toLowerCase ra rb
              = analysis toLowerCase (Array items_a) (Array items_b)).
  { rewrite !analysis_normalized.
    rewrite (exports_normalized _ _ _ Ea), (exports_normalized _ _ _ Eb). reflexivity. }
  split; [exact H|]. unfold deferred. rewrite H. reflexivity.
Qed.

Lemma analysis_exports_witness :
  analysis lower_latin1
    (Object [(str "relationships_following", Array [Object [(str "title", Str (str "a"))]]);
             (str "other", Number 1)])
    (Array [])
  = analysis lower_latin1 (Array [Object [(str "title", Str (str "a"))]]) (Array []).
Proof.
  apply (analysis_exports lower_latin1).
  - right. eexists. split; reflexivity.
  - left. reflexivity.
Defined.

Lemma filter_all {A} (P : A -> Prop) `{!forall x, Decision (P x)} (l : list A) :
  (forall x, x ∈ l -> P x) -> filter P l = l.
Proof.
  induction l as [|x l IH]; [reflexivity|]. intros Hall.
  rewrite filter_cons_True by (apply Hall; left).
  f_equal. apply IH. intros y Hy. apply Hall. right. exact Hy.
Qed.

Lemma normalized_no_key (members : list (jsstring * jsval)) (k : K.key) :
  K.name k ∉ members.*1 -> normalized (Object members) k = Normal [].
Proof.
  intros Hk. apply own_property_None in Hk.
  unfold normalized, unwrap, member. cbn. rewrite Hk. reflexivity.
Qed.

(** X14.  A followers text that is an object without the key
    [relationships_followers] (the following file pasted in the followers
    box, say) is no error in itself: it reads as no follower at all.  Every
    followed account is then reported when the usernames followed are all
    strings; when one is not, the comparison raises its [TypeError] as it
    would against any followers.  Likewise a following text without
    [relationships_following] reads as an empty list: nobody is reported
    when the followers' usernames are all strings, and the comparison
    raises otherwise. *)
Theorem analysis_without_key
    (toLowerCase : jsstring -> jsstring) (root : jsval)
    (members : list (jsstring * jsval)) (records : list contact) :
  (K.name K.relationships_followers ∉ members.*1 ->
   normalized root K.relationships_following = Normal records ->
   normalized (Object members) K.relationships_followers = Normal []
   /\ analysis toLowerCase root (Object members)
      = if forallb named records then Normal (records, [], records)
        else Throw TypeError)
  /\ (K.name K.relationships_following ∉ members.*1 ->
      normalized root K.relationships_followers = Normal records ->
      normalized (Object members) K.relationships_following = Normal []
      /\ analysis toLowerCase (Object members) root
         = if forallb named records then Normal ([], records, [])
           else Throw TypeError).
Proof.
  split; intros Hk Hr; (split; [apply normalized_no_key, Hk|]);
    rewrite analysis_normalized, Hr, (normalized_no_key _ _ Hk).
  - destruct (reciprocity_cases toLowerCase records []) as [(Hn & _ & ->) | [[Hn | Hn] ->]];
      try discriminate Hn; rewrite Hn; [|reflexivity].
    do 2 f_equal. apply filter_all. intros x _. cbn. apply not_elem_of_nil.
  - destruct (reciprocity_cases toLowerCase [] records) as [(_ & Hn & ->) | [[Hn | Hn] ->]];
      try discriminate Hn; rewrite Hn; reflexivity.
Qed.

Lemma analysis_without_key_witness :
  analysis lower_latin1
    (Array [Object [(str "title", Str (str "a"))]; Object [(str "title", Str (str "b"))]])
    (Object [(str "relationships_following", Array [Object [(str "title", Str (str "a"))]])])
  = Normal ([{| username := Str (str "a"); href := Str [] |};
             {| username := Str (str "b"); href := Str [] |}],
            [],
            [{| username := Str (str "a"); href := Str [] |};
             {| username := Str (str "b"); href := Str [] |}]).
Proof.
  refine (proj2 (proj1 (analysis_without_key lower_latin1
    (Array [Object [(str "title", Str (str "a"))]; Object [(str "title", Str (str "b"))]])
    [(str "relationships_following", Array [Object [(str "title", Str (str "a"))]])]
    [{| username := Str (str "a"); href := Str [] |};
     {| username := Str (str "b"); href := Str [] |}]) _ eq_refl)).
  intros Hin. apply list_elem_of_In in Hin. destruct Hin as [Hin | []]. discriminate Hin.
Defined.





Lemma forallb_false {A} (p : A -> bool) (l : list A) :
  forallb p l = false <-> exists x, x ∈ l /\ p x = false.
Proof.
  induction l as [|x l IH]; cbn.
  - split; [discriminate | intros (c & Hc & _); apply elem_of_nil in Hc; destruct Hc].
  - rewrite andb_false_iff, IH. split.
    + intros [Hx | (c & Hc & Hn)]; [exists x | exists c]; split; auto; [left | right; exact Hc].
    + intros (c & Hc & Hn). apply elem_of_cons in Hc as [-> | Hc]; [left; exact Hn|].
      right. exists c. auto.
Qed.



(** ** The page *)

(** X16.  [createSection] raises a [TypeError] exactly when some record
    has a username, or a truthy link, that does not convert to a string.
    Otherwise the section shows the number of its records, and either the
    empty state, exactly when there is no record, or a table with one row
    per record: the usernames in the order of the records, and every row
    highlighted, or none, as the section is. *)
Theorem createSection_content
    (title : string) (data : list contact) (highlight : bool) (icon : string) :
  (Render.createSection title data highlight icon = Throw TypeError
   <-> exists x, x ∈ data /\ displayable x = false)
  /\ (returns (Render.createSection title data highlight icon)
      <-> forallb displayable data = true)
  /\ (forall s,
        Render.createSection title data highlight icon = Normal s ->
        Render.section_count s = length data
        /\ Render.section_title s = title
        /\ (Render.section_content s = Render.EmptyState "📭" "Немає даних"
            <-> data = [])
        /\ (forall rows,
              Render.section_content s = Render.Table rows ->
              data <> []
              /\ length rows = length data
              /\ Render.username_cell <$> rows = username <$> data
              /\ Forall (fun r => Render.row_classes r
                                  = if highlight then ["not-following"%string] else [])
                   rows)).
Proof.
  rewrite createSection_cases. split; [|split].
  - rewrite <- forallb_false.
    destruct (forallb displayable data); split; intros H; try discriminate H; reflexivity.
  - destruct (forallb displayable data); split.
    + reflexivity.
    + intros _. eexists; reflexivity.
    + intros [s H]. discriminate H.
    + discriminate.
  - intros s. destruct (forallb displayable data); [|discriminate].
    intros [= <-]. unfold section_of. cbn.
    split; [reflexivity|]. split; [reflexivity|]. split.
    + destruct data as [|x l]; cbn; split; try reflexivity; discriminate.
    + intros rows. destruct data as [|x l]; cbn; [discriminate|].
      intros [= <-]. split; [discriminate|].
      split; [cbn; rewrite length_map; reflexivity|]. split.
      * cbn. f_equal. rewrite <- list_fmap_compose. reflexivity.
      * constructor; [reflexivity|]. apply Forall_forall. intros r Hr.
        apply list_elem_of_fmap in Hr as (item & -> & _). reflexivity.
Qed.

Lemma createSection_content_witness :
  Render.section_count
    (section_of "Following"
       [{| username := Str (str "a"); href := Str [] |};
        {| username := Str (str "b"); href := Str (str "u/b") |}] true "x") = 2.
Proof.
  refine (proj1 (proj2 (proj2
    (createSection_content "Following"
       [{| username := Str (str "a"); href := Str [] |};
        {| username := Str (str "b"); href := Str (str "u/b") |}] true "x")) _ eq_refl)).
Defined.

(** X17.  [createTable] raises a [TypeError] exactly when some record has
    a username, or a truthy link, that does not convert to a string.  In
    the table it returns otherwise, a row carries a link exactly when the
    link of its record is truthy; the link then shows its own address,
    opens in a new tab and has [rel] set to [noopener noreferrer];
    otherwise the cell shows a dash.  For the records [extractUsernames]
    returns, the dash stands exactly for the empty string. *)
Theorem createTable_links (data : list contact) (highlight : bool) :
  (Render.createTable data highlight = Throw TypeError
   <-> exists x, x ∈ data /\ displayable x = false)
  /\ (forall rows,
        Render.createTable data highlight = Normal rows ->
        Forall2
          (fun item r =>
             match Render.link r with
             | Render.Link a =>
                 truthy (href item) = true
                 /\ Render.anchor_href a = href item /\ Render.anchor_text a = href item
                 /\ Render.anchor_target a = "_blank"%string
                 /\ Render.anchor_rel a = "noopener noreferrer"%string
             | Render.Dash text _ => truthy (href item) = false /\ text = "-"%string
             end)
          data rows
        /\ (forall root k,
              normalized root k = Normal data ->
              Forall2 (fun item r =>
                         (exists text color, Render.link r = Render.Dash text color)
                         <-> href item = Str [])
                data rows)).
Proof.
  rewrite createTable_cases. split.
  - rewrite <- forallb_false.
    destruct (forallb displayable data); split; intros H; try discriminate H; reflexivity.
  - intros rows. destruct (forallb displayable data); [|discriminate].
    intros [= <-]. split.
    + induction data as [|x l IH]; cbn; constructor; [|exact IH].
      cbn. destruct (truthy (href x)) eqn:H; cbn; auto.
    + intros root k Hn. apply normalized_Normal in Hn as [_ Hh].
      induction Hh as [|x l Hx _ IH]; cbn; constructor; [|exact IH].
      cbn. destruct (truthy (href x)) eqn:H.
      * split; [intros (t & c & Hd); discriminate Hd|].
        intros He. rewrite He in H. discriminate H.
      * split; [|intros _; eexists; eexists; reflexivity].
        intros _. destruct Hx as [Hx | Hx]; [exact Hx | congruence].
Qed.

Lemma createTable_links_witness :
  Forall2 (fun item r => (exists text color, Render.link r = Render.Dash text color)
                         <-> href item = Str [])
    [{| username := Str (str "a"); href := Str [] |}]
    [row_of false {| username := Str (str "a"); href := Str [] |}].
Proof.
  apply (proj2 (proj2 (createTable_links [{| username := Str (str "a"); href := Str [] |}]
                         false) _ eq_refl)
           (Array [Object [(str "title", Str (str "a"))]]) K.relationships_following).
  reflexivity.
Defined.

Lemma results_after_app (t1 t2 : list effect) (r : results) :
  fold_left results_step (t1 ++ t2) r = fold_left results_step t2 (fold_left results_step t1 r).
Proof. apply fold_left_app. Qed.

Lemma parse_report_page (log : list effect) (r : results) (d : option bool) :
  parse_report log ->
  fold_left results_step log r = r /\ fold_left button_step log d = d.
Proof. intros [-> | [m ->]]; split; reflexivity. Qed.

(** X18.  After a run of [analyze] the spinner is never left on the page
    and the button is never left disabled.  The results area holds what it
    held before when the run stopped at its guard (an earlier result stays
    on the page), nothing after an analysis or a display that failed, and
    otherwise the three sections [Following], [Followers] and the
    not-following-back list, in this order, each counting its records. *)
Theorem analyze_page (toLowerCase : jsstring -> jsstring) (a b : jsstring) :
  results_after (analyze toLowerCase a b) <> Spinner
  /\ button_after (analyze toLowerCase a b) <> Some true
  /\ (results_after (analyze toLowerCase a b) = Untouched
      <-> show_loading ∉ analyze toLowerCase a b)
  /\ (results_after (analyze toLowerCase a b) = Cleared
      <-> analyze toLowerCase a b = analysis_failure)
  /\ (forall sections,
        results_after (analyze toLowerCase a b) = Sections sections ->
        exists f g n,
          displayResults f g n ∈ analyze toLowerCase a b
          /\ Render.displayResults f g n = Normal sections
          /\ Render.section_title <$> sections
             = ["Following"; "Followers"; "Не підписані у відповідь"]%string
          /\ Render.section_count <$> sections = [length f; length g; length n]).
Proof.
  destruct (analyze_cases toLowerCase a b) as [[_ H] | (ra & rb & _ & _ & _ & _ & H)].
  - destruct (parseJSON_value_log a) as [Ha _]. destruct (parseJSON_value_log b) as [Hb _].
    assert (Hr : results_after (analyze toLowerCase a b) = Untouched).
    { rewrite H. unfold results_after. rewrite fold_left_app.
      rewrite (proj1 (parse_report_page _ Untouched None Ha)).
      apply (parse_report_page _ Untouched None Hb). }
    assert (Hd : button_after (analyze toLowerCase a b) = None).
    { rewrite H. unfold button_after. rewrite fold_left_app.
      rewrite (proj2 (parse_report_page _ Untouched None Ha)).
      apply (parse_report_page _ Untouched None Hb). }
    assert (Hno : show_loading ∉ analyze toLowerCase a b).
    { rewrite H. intros Hin. apply elem_of_app in Hin.
      destruct Ha as [Ha | [ma Ha]]; destruct Hb as [Hb | [mb Hb]];
        rewrite Ha, Hb in Hin; destruct Hin as [Hin | Hin];
        repeat (apply elem_of_cons in Hin as [Hin | Hin]; [discriminate Hin|]);
        apply elem_of_nil in Hin; destruct Hin. }
    rewrite Hr, Hd. split; [discriminate|]. split; [discriminate|].
    split; [split; auto|]. split; [|discriminate].
    split; [discriminate|]. intros Hf. destruct Hno. rewrite Hf. left.
  - rewrite H.
    destruct (deferred_cases toLowerCase ra rb)
      as [(f & g & n & sections & _ & Hs & ->) | [_ ->]].
    + unfold results_after, button_after. cbn -[Render.displayResults]. rewrite Hs.
      split; [discriminate|]. split; [discriminate|]. split; [|split].
      * split; [discriminate|]. intros Hno. destruct Hno. left.
      * split; discriminate.
      * intros sections' [= <-]. exists f, g, n. split; [right; left|].
        split; [exact Hs|]. rewrite displayResults_cases in Hs.
        destruct (forallb displayable (f ++ g ++ n)); [|discriminate Hs].
        injection Hs as <-. split; reflexivity.
    + cbn. split; [discriminate|]. split; [discriminate|]. split; [|split].
      * split; [discriminate|]. intros Hno. destruct Hno. left.
      * split; reflexivity.
      * discriminate.
Qed.

(** ** The section and the accordion *)

Lemma toggle_elem_of (token c : string) (classes : list string) :
  c ∈ SectionToggle.toggle token classes
  <-> if bool_decide (c = token) then token ∉ classes else c ∈ classes.
Proof.
  unfold SectionToggle.toggle. case_bool_decide as Hin; case_bool_decide as Hc; subst.
  - rewrite list_elem_of_filter. tauto.
  - rewrite list_elem_of_filter. tauto.
  - rewrite elem_of_app, list_elem_of_singleton. tauto.
  - rewrite elem_of_app, list_elem_of_singleton. tauto.
Qed.

Lemma section_iter (n : nat) :
  Nat.iter n SectionToggle.click SectionToggle.created
  = if Nat.even n then SectionToggle.created
    else SectionToggle.click SectionToggle.created.
Proof.
  induction n as [|n IH]; [reflexivity|].
  rewrite Nat.iter_succ, IH, Nat.even_succ, <- Nat.negb_even.
  destruct (Nat.even n); reflexivity.
Qed.

(** X19.  A click on the header of a section flips the class [open] on the
    content and on the header, leaves their other classes alone, and sets
    the arrow to match the content: down when the click opened it, right
    when it closed it.  From the section as it is created, closed, the
    section is open after an odd number of clicks and back to its first
    state after an even number. *)
Theorem section_click (s : SectionToggle.state) (n : nat) :
  (forall c,
     (c ∈ SectionToggle.content_classes (SectionToggle.click s)
      <-> if bool_decide (c = "open"%string)
          then "open"%string ∉ SectionToggle.content_classes s
          else c ∈ SectionToggle.content_classes s)
     /\ (c ∈ SectionToggle.header_classes (SectionToggle.click s)
         <-> if bool_decide (c = "open"%string)
             then "open"%string ∉ SectionToggle.header_classes s
             else c ∈ SectionToggle.header_classes s))
  /\ (SectionToggle.arrow (SectionToggle.click s) = arrow_open
      <-> "open"%string ∈ SectionToggle.content_classes (SectionToggle.click s))
  /\ Nat.iter n SectionToggle.click SectionToggle.created
     = (if Nat.even n then SectionToggle.created
        else {| SectionToggle.content_classes := ["section-content"; "open"]%string;
                SectionToggle.header_classes := ["section-header"; "open"]%string;
                SectionToggle.arrow := arrow_open |}).
Proof.
  split; [|split].
  - intros c. split; apply toggle_elem_of.
  - unfold SectionToggle.click.
    cbn [SectionToggle.arrow SectionToggle.content_classes].
    rewrite toggle_elem_of, (bool_decide_eq_true_2 ("open"%string = "open"%string) eq_refl).
    case_bool_decide as Hopen.
    + split; [discriminate | intros Hno; destruct (Hno Hopen)].
    + split; [intros _; exact Hopen | reflexivity].
  - apply section_iter.
Qed.

Lemma click_expanded (arrow hidden : option jsstring) :
  (Accordion.click {| Accordion.aria_expanded := Some (str "true");
                      Accordion.arrow := arrow;
                      Accordion.panel := Some hidden |}).1
  = {| Accordion.aria_expanded := Some (str "false");
       Accordion.arrow := match arrow with Some _ => Some arrow_closed | None => None end;
       Accordion.panel := Some (Some []) |}.
Proof. reflexivity. Qed.

Lemma click_collapsed (expanded arrow hidden : option jsstring) :
  expanded <> Some (str "true") ->
  (Accordion.click {| Accordion.aria_expanded := expanded;
                      Accordion.arrow := arrow;
                      Accordion.panel := Some hidden |}).1
  = {| Accordion.aria_expanded := Some (str "true");
       Accordion.arrow := match arrow with Some _ => Some arrow_open | None => None end;
       Accordion.panel := Some None |}.
Proof.
  intros He. unfold Accordion.click. cbn [Accordion.panel Accordion.aria_expanded].
  case_bool_decide; [contradiction | reflexivity].
Qed.

(** X20.  A click on the header of the accordion, when the panel exists,
    leaves the three parts in step: the header is expanded exactly when it
    was not (anything but the exact value [true], a missing attribute
    included, counts as collapsed), the panel is visible exactly when the
    header is expanded, and the arrow, if there is one, points down exactly
    then; two more clicks bring back the same state.  Without the panel a
    click changes nothing. *)
Theorem accordion_click (s : Accordion.state) :
  (Accordion.panel s = None -> (Accordion.click s).1 = s)
  /\ (forall hidden, Accordion.panel s = Some hidden ->
        let s' := (Accordion.click s).1 in
        (Accordion.aria_expanded s' = Some (str "true")
         <-> Accordion.aria_expanded s <> Some (str "true"))
        /\ (Accordion.aria_expanded s' = Some (str "true")
            \/ Accordion.aria_expanded s' = Some (str "false"))
        /\ (Accordion.panel s' = Some None
            <-> Accordion.aria_expanded s' = Some (str "true"))
        /\ (Accordion.panel s' = Some (Some [])
            <-> Accordion.aria_expanded s' = Some (str "false"))
        /\ (forall t, Accordion.arrow s' = Some t ->
              (t = arrow_open <-> Accordion.aria_expanded s' = Some (str "true"))
              /\ (t = arrow_closed <-> Accordion.aria_expanded s' = Some (str "false")))
        /\ (Accordion.click (Accordion.click s').1).1 = s').
Proof.
  split.
  - intros Hp. unfold Accordion.click. rewrite Hp. reflexivity.
  - intros hidden Hp. destruct s as [expanded arrow panel]. cbn in Hp. subst panel.
    cbv zeta. destruct (decide (expanded = Some (str "true"))) as [-> | He].
    + rewrite !click_expanded.
      rewrite (click_collapsed (Some (str "false")) _ _ ltac:(discriminate)).
      rewrite click_expanded. cbn.
      split; [split; [discriminate | intros H; destruct H; reflexivity]|].
      split; [right; reflexivity|]. split; [split; discriminate|].
      split; [split; reflexivity|]. split.
      * destruct arrow; [|discriminate]. intros t [= <-].
        split; split; try discriminate; reflexivity.
      * destruct arrow; reflexivity.
    + rewrite !(click_collapsed expanded _ _ He).
      rewrite click_expanded.
      rewrite (click_collapsed (Some (str "false")) _ _ ltac:(discriminate)). cbn.
      split; [split; [intros _; exact He | reflexivity]|].
      split; [left; reflexivity|]. split; [split; reflexivity|].
      split; [split; discriminate|]. split.
      * destruct arrow; [|discriminate]. intros t [= <-].
        split; split; try discriminate; reflexivity.
      * destruct arrow; reflexivity.
Qed.

Lemma accordion_click_witness :
  Accordion.aria_expanded
    (Accordion.click {| Accordion.aria_expanded := None;
                        Accordion.arrow := Some arrow_closed;
                        Accordion.panel := Some (Some []) |}).1
  = Some (str "true").
Proof.
  pose proof (proj2 (accordion_click {| Accordion.aria_expanded := None;
                                        Accordion.arrow := Some arrow_closed;
                                        Accordion.panel := Some (Some []) |})
                (Some []) eq_refl) as H.
  cbv zeta in H. destruct H as [H _]. apply H. discriminate.
Defined.

(** ** [loadInstructions] *)

Lemma attempt_document (f : Instructions.fetched) (html : jsstring) :
  Instructions.attempt f = inl html
  <-> exists status, f = Instructions.Response true status (inl html).
Proof.
  split.
  - destruct f as [m | [|] status text]; cbn; try discriminate.
    intros ->. exists status. reflexivity.
  - intros [status ->]. reflexivity.
Qed.

Lemma attempt_error (f : Instructions.fetched) (message : jsstring) :
  Instructions.attempt f = inr message
  <-> f = Instructions.Rejected message
      \/ (exists status, f = Instructions.Response true status (inr message))
      \/ (exists status text,
            f = Instructions.Response false status text
            /\ message = str "HTTP error! status: " ++ str (pretty status)).
Proof.
  split.
  - destruct f as [m | [|] status text]; cbn.
    + intros [= <-]. left. reflexivity.
    + intros ->. right. left. exists status. reflexivity.
    + intros [= <-]. right. right. exists status, text. split; reflexivity.
  - intros [-> | [[status ->] | (status & text & -> & ->)]]; reflexivity.
Qed.

(** X21.  When the container exists, [loadInstructions] always gives it a
    content: the document fetched, exactly when the response is [ok] and
    its text could be read; otherwise the error panel, with the message of
    the rejection or, for a response that is not [ok], the message built
    from its status, whose body is not shown.  Without the container
    nothing is fetched and nothing is shown. *)
Theorem loadInstructions_shown (f : Instructions.fetched) :
  (forall html,
     (Instructions.loadInstructions true f).1.2 = Some (Instructions.Html html)
     <-> exists status, f = Instructions.Response true status (inl html))
  /\ (forall message,
        (Instructions.loadInstructions true f).1.2 = Some (Instructions.ErrorPanel message)
        <-> f = Instructions.Rejected message
            \/ (exists status, f = Instructions.Response true status (inr message))
            \/ (exists status text,
                  f = Instructions.Response false status text
                  /\ message = str "HTTP error! status: " ++ str (pretty status)))
  /\ (Instructions.loadInstructions true f).1.2 <> None
  /\ (Instructions.loadInstructions true f).1.1 = true
  /\ (Instructions.loadInstructions false f).1 = (false, None).
Proof.
  unfold Instructions.loadInstructions. cbn [negb].
  split; [|split; [|split; [|split]]].
  - intros html. rewrite <- attempt_document.
    destruct (Instructions.attempt f) as [d|m]; cbn; split; congruence.
  - intros message. rewrite <- attempt_error.
    destruct (Instructions.attempt f) as [d|m]; cbn; split; congruence.
  - destruct (Instructions.attempt f); discriminate.
  - destruct (Instructions.attempt f); reflexivity.
  - reflexivity.
Qed.
